(** * Verification of the test-suite helpers of the pentest harness

    The development embeds, function by function, the helpers of
    [testsuite/src/utils.py] (the condition poller [wait_for_condition],
    the HTTP wrapper [APIClient], [mask_sensitive_data], the retry
    decorator, the resource manager, schema validation, nested fields and
    the metrics), the query builders, the search client and the test-data
    helper of [testsuite/src/os_queries.py] and the job-status predicates
    of the end-to-end tests, and proves the properties the specification
    states about them and further properties of the code.

    Part I holds the embedding, Part II the theorems. *)

From Stdlib Require Import ZArith Lia Bool Ascii.
From stdpp Require Import gmap strings list fin_maps.

Set Warnings "-register-all".

(* ===================================================================== *)
(** * Part I: the embedding                                               *)
(* ===================================================================== *)

(** ** Python runtime notions shared by the models *)
Module Py.

(** What a [raise] can carry.  The first constructors are the classes the
    helpers meet; all of them derive from [Exception].  [ControlSignal]
    stands for the classes that derive from [BaseException] only
    (KeyboardInterrupt, SystemExit, asyncio.CancelledError). *)
Inductive exn :=
  | HTTPStatusError (status_code : Z) (body : string)
  | TransportError (msg : string)
  | JSONDecodeError (msg : string)
  | KeyError (key : string)
  | OtherException (cls msg : string)
  | ControlSignal (cls : string).

(** [isinstance(e, Exception)]: what an [except Exception] clause catches. *)
Definition isinstance_Exception (e : exn) : bool :=
  match e with
  | ControlSignal _ => false
  | _ => true
  end.

(** A callee either returns a value or raises. *)
Inductive res (A : Type) :=
  | Ok (a : A)
  | Err (e : exn).
Arguments Ok {A} a.
Arguments Err {A} e.

(** The values of JSON documents and of the dictionaries built from them;
    [JNull] is Python's [None]. *)
Inductive json :=
  | JNull
  | JBool (b : bool)
  | JNum (n : Z)
  | JStr (s : string)
  | JList (l : list json)
  | JObj (m : gmap string json).

(** [d[key]] *)
Definition getitem (d : json) (key : string) : res json :=
  match d with
  | JObj m =>
      match m !! key with
      | Some v => Ok v
      | None => Err (KeyError key)
      end
  | _ => Err (OtherException "TypeError" "object is not subscriptable")
  end.

(** [v in [s1, ..., sn]] for a list of string literals: only a string
    compares equal to one of them. *)
Definition is_in (v : json) (l : list string) : bool :=
  match v with
  | JStr s => bool_decide (s ∈ l)
  | _ => false
  end.

(** [s.lstrip('/')] and [s.rstrip('/')] *)
Fixpoint lstrip_slash (s : string) : string :=
  match s with
  | String "/"%char s' => lstrip_slash s'
  | _ => s
  end.

Definition rstrip_slash (s : string) : string :=
  String.rev (lstrip_slash (String.rev s)).

End Py.

(** ** The condition poller: [wait_for_condition] of utils.py *)
Module Poller.
Import Py.
Local Open Scope Z_scope.

(** One call of the predicate, as the poller observes it: the call either
    returns a value, of which only the truthiness is used ([if result:]),
    or raises; and it takes [cost] clock ticks to do so (the predicate may
    await network I/O). *)
Inductive outcome :=
  | Returns (truthy : bool)
  | Raises (e : exn).

Record invocation := Invocation { result : outcome; cost : nat }.

(** The predicate [condition_func] is an argument of the poller.  Its
    behaviour may depend on how often it has been called and on the time
    of the call: [f n t] is what the call number [n] does when it is made
    at clock reading [t]. *)
Definition condition_func := nat -> Z -> invocation.

(** The two [print] calls of the poller. *)
Inductive line :=
  | ErrorChecking (description : string) (e : exn)
      (* print(f"Error checking {description}: {e}") *)
  | TimeoutWaiting (description : string) (timeout : Z).
      (* print(f"Timeout waiting for {description} after {timeout} seconds") *)

(** The state the poller threads: the clock read by [time.time()], in
    ticks of any fixed resolution; the number of calls made to the
    predicate so far; what has been printed.  The clock only moves
    forward: it advances while the predicate is awaited and during the
    sleep, and a sleep lasts exactly the delay asked for. *)
Record world := World { now : Z; calls : nat; stdout : list line }.

Definition invoke (f : condition_func) (w : world) : outcome * world :=
  let i := f (calls w) (now w) in
  (result i,
   {| now := now w + Z.of_nat (cost i); calls := S (calls w); stdout := stdout w |}).

Definition print (l : line) (w : world) : world :=
  {| now := now w; calls := calls w; stdout := stdout w ++ [l] |}.

(** [await asyncio.sleep(delay)]: a delay that is zero or negative returns
    at once. *)
Definition sleep (delay : Z) (w : world) : world :=
  {| now := now w + Z.max 0 delay; calls := calls w; stdout := stdout w |}.

(** How a call of the poller ends: it returns a boolean, or an exception
    leaves it. *)
Inductive completion :=
  | Return (b : bool)
  | Propagate (e : exn).

(** The [while] loop of [wait_for_condition].  [fuel] bounds the number of
    loop tests; [None] means the bound was reached with the loop still
    running. *)
Fixpoint poll_loop (fuel : nat) (condition : condition_func)
    (start_time timeout interval : Z) (description : string) (w : world)
    : option (completion * world) :=
  match fuel with
  | O => None
  | S fuel' =>
      if now w - start_time <? timeout then
        let (r, w1) := invoke condition w in
        match r with
        | Returns true => Some (Return true, w1)
        | Returns false =>
            poll_loop fuel' condition start_time timeout interval description
              (sleep interval w1)
        | Raises e =>
            if isinstance_Exception e then
              poll_loop fuel' condition start_time timeout interval description
                (sleep interval (print (ErrorChecking description e) w1))
            else Some (Propagate e, w1)
        end
      else
        Some (Return false, print (TimeoutWaiting description timeout) w)
  end.

(** [wait_for_condition(condition_func, timeout, interval, description)]
    called when the clock reads [clock]: [start_time = time.time()], then
    the loop. *)
Definition wait_for_condition (fuel : nat) (condition : condition_func)
    (timeout interval : Z) (description : string) (clock : Z)
    : option (completion * world) :=
  let start_time := clock in
  poll_loop fuel condition start_time timeout interval description
    {| now := clock; calls := 0; stdout := [] |}.

(** *** The schedule of a run

    The definitions of this section describe a run of the loop test by
    test; Part II proves that [poll_loop] follows them. *)
Section Schedule.
Context (f : condition_func) (start_time timeout interval : Z) (description : string).

(** [tick k] is the clock reading at which the loop test number [k] is
    made, as long as the loop is still running: each iteration lasts the
    time the call takes plus the sleep. *)
Fixpoint tick (k : nat) : Z :=
  match k with
  | O => start_time
  | S k' => tick k' + Z.of_nat (cost (f k' (tick k'))) + Z.max 0 interval
  end.

(** What call number [k] of the run does. *)
Definition poll (k : nat) : invocation := f k (tick k).

(** The lines the handler has printed when the loop test number [k] is
    made: one per call that raised, in the order of the calls. *)
Fixpoint errors (k : nat) : list line :=
  match k with
  | O => []
  | S k' =>
      errors k' ++
      match result (poll k') with
      | Raises e =>
          if isinstance_Exception e then [ErrorChecking description e] else []
      | Returns _ => []
      end
  end.

(** The state in which the loop test number [k] is made, and the state
    just after call number [k] has ended. *)
Definition at_test (k : nat) : world :=
  {| now := tick k; calls := k; stdout := errors k |}.

Definition after_call (k : nat) : world :=
  {| now := tick k + Z.of_nat (cost (poll k)); calls := S k; stdout := errors k |}.

(** What iteration [k] decides: [None] when the loop goes on to the test
    number [k + 1], and how the poller ends otherwise. *)
Definition iteration (k : nat) : option (completion * world) :=
  if tick k - start_time <? timeout then
    match result (poll k) with
    | Returns true => Some (Return true, after_call k)
    | Returns false => None
    | Raises e =>
        if isinstance_Exception e then None
        else Some (Propagate e, after_call k)
    end
  else Some (Return false, print (TimeoutWaiting description timeout) (at_test k)).

Definition goes_on (k : nat) : bool :=
  match iteration k with
  | None => true
  | Some _ => false
  end.

(** Call number [k] is made by the run: every earlier iteration let the
    loop go on, and the loop test number [k] passes. *)
Definition polled (k : nat) : bool :=
  forallb goes_on (seq 0 k) && (tick k - start_time <? timeout).

End Schedule.

Definition is_error (l : line) : bool :=
  match l with
  | ErrorChecking _ _ => true
  | TimeoutWaiting _ _ => false
  end.

(** Number of [Error checking ...] lines printed. *)
Definition errors_logged (w : world) : nat :=
  length (List.filter is_error (stdout w)).


(** Time passes in every iteration: the sleep is positive or the call of
    the predicate takes time. *)
Definition time_passes (f : condition_func) (interval : Z) : Prop :=
  forall n t, 0 < Z.of_nat (cost (f n t)) + Z.max 0 interval.

(** *** Predicates used as concrete inputs *)

(** Raises a transport error at once, every time. *)
Definition always_refused : condition_func :=
  fun _ _ => Invocation (Raises (TransportError "connection refused")) 0.

(** Raises a transport error every time, after [d] ticks. *)
Definition refused_after (d : nat) : condition_func :=
  fun _ _ => Invocation (Raises (TransportError "connect timeout")) d.

(** Returns a fixed boolean after [d] ticks. *)
Definition answers_after (d : nat) (b : bool) : condition_func :=
  fun _ _ => Invocation (Returns b) d.

(** Fails twice, then the job is still running once, then it is done. *)
Definition flaky_then_done : condition_func :=
  fun n _ =>
    match n with
    | 0%nat | 1%nat => Invocation (Raises (TransportError "connection reset")) 0
    | 2%nat => Invocation (Returns false) 0
    | _ => Invocation (Returns true) 0
    end.


End Poller.

(** ** The HTTP wrapper: class [APIClient] of utils.py *)
Module Client.
Import Py.
Local Open Scope Z_scope.

Inductive verb := GET | POST | PUT | DELETE.

(** What the wrapper hands to httpx: the method, the URL, the query
    parameters ([params=]) and the JSON payload ([json=]); [JNull] is an
    argument left at [None]. *)
Record request := Request {
  method : verb;
  url : string;
  params : json;
  payload : json
}.

Record response := Response { status_code : Z; content : string }.

(** What happens outside the instance, in order: an [httpx.AsyncClient]
    (a connection pool) is constructed, a request goes through a pool, a
    pool is closed.  Pools are numbered in the order of construction. *)
Inductive event :=
  | Constructed (pool : nat) (timeout : Z)
  | Sent (pool : nat) (r : request)
  | Closed (pool : nat).

(** The instance: [self.base_url], [self.timeout], [self.client]. *)
Record APIClient := Instance {
  base_url : string;
  timeout : Z;
  client : option nat
}.

Section WithNetwork.

(** The network and the libraries the wrapper calls are not part of the
    repository.  [send r n] is what the server and the transport answer
    to the request [r] in the network state [n]: a response, or the
    description of a connection or timeout failure.  [loads] is the JSON
    decoder, [urljoin] is urllib's. *)
Context {Net : Type}.
Context (send : request -> Net -> (string + response) * Net).
Context (loads : string -> option json).
Context (urljoin : string -> string -> string).

Record state := State {
  self : APIClient;
  net : Net;
  constructed : nat;
  events : list event
}.

(** Code that reads and writes the instance and the network, and may
    raise. *)
Definition M (A : Type) : Type := state -> res A * state.

Definition ret {A} (a : A) : M A := fun s => (Ok a, s).

Definition raise {A} (e : exn) : M A := fun s => (Err e, s).

Definition bind {A B} (m : M A) (k : A -> M B) : M B :=
  fun s =>
    match m s with
    | (Ok a, s') => k a s'
    | (Err e, s') => (Err e, s')
    end.

Notation "'do' x <- m ;; k" := (bind m (fun x => k))
  (at level 10, x name, m at level 99, k at level 200).

(** [try: body / except Exception: handler] and the bare
    [try: body / except: handler]. *)
Definition try_except_Exception {A} (body : M A) (handler : exn -> M A) : M A :=
  fun s =>
    match body s with
    | (Ok a, s') => (Ok a, s')
    | (Err e, s') => if isinstance_Exception e then handler e s' else (Err e, s')
    end.

Definition try_except {A} (body : M A) (handler : M A) : M A :=
  fun s =>
    match body s with
    | (Ok a, s') => (Ok a, s')
    | (Err e, s') => handler s'
    end.

Definition set_client (c : option nat) : M unit :=
  fun s =>
    (Ok tt,
     {| self := {| base_url := base_url (self s); timeout := timeout (self s);
                   client := c |};
        net := net s; constructed := constructed s; events := events s |}).

Definition emit (e : event) : M unit :=
  fun s =>
    (Ok tt,
     {| self := self s; net := net s; constructed := constructed s;
        events := events s ++ [e] |}).

(** [httpx.AsyncClient(timeout=...)]: a new pool. *)
Definition AsyncClient (t : Z) : M nat :=
  fun s =>
    (Ok (constructed s),
     {| self := self s; net := net s; constructed := S (constructed s);
        events := events s ++ [Constructed (constructed s) t] |}).

(** [await client.get(url, ...)] and its siblings: httpx sends the
    request through the pool and raises a [TransportError] when the
    connection fails or times out. *)
Definition client_request (pool : nat) (r : request) : M response :=
  fun s =>
    let (answer, n) := send r (net s) in
    let s' := {| self := self s; net := n; constructed := constructed s;
                 events := events s ++ [Sent pool r] |} in
    match answer with
    | inl failure => (Err (TransportError failure), s')
    | inr resp => (Ok resp, s')
    end.

(** httpx's [Response.is_success] and [Response.raise_for_status()], as
    the library documents them: a status outside 200..299 raises an
    [HTTPStatusError] that holds the response. *)
Definition is_success (r : response) : bool :=
  (200 <=? status_code r) && (status_code r <=? 299).

Definition raise_for_status (r : response) : M unit :=
  if is_success r then ret tt
  else raise (HTTPStatusError (status_code r) (content r)).

(** httpx's [Response.json()]: the decoded body, or the decoder's error. *)
Definition response_json (r : response) : M json :=
  match loads (content r) with
  | Some j => ret j
  | None => raise (JSONDecodeError (content r))
  end.

(** [APIClient(base_url, timeout)] *)
Definition __init__ (base : string) (t : Z) : APIClient :=
  {| base_url := rstrip_slash base; timeout := t; client := None |}.

Definition close : M unit :=
  fun s =>
    match client (self s) with
    | Some pool => (do _ <- emit (Closed pool) ;; set_client None) s
    | None => ret tt s
    end.

Definition _get_client : M nat :=
  fun s =>
    match client (self s) with
    | Some pool => ret pool s
    | None =>
        (do pool <- AsyncClient (timeout (self s)) ;;
         do _ <- set_client (Some pool) ;;
         ret pool) s
    end.

Definition endpoint_url (endpoint : string) : M string :=
  fun s => ret (urljoin (base_url (self s) +:+ "/") (lstrip_slash endpoint)) s.

Definition get (endpoint : string) (params : json) : M json :=
  do url <- endpoint_url endpoint ;;
  do client <- _get_client ;;
  do response <- client_request client (Request GET url params JNull) ;;
  do _ <- raise_for_status response ;;
  response_json response.

Definition post (endpoint : string) (data : json) : M json :=
  do url <- endpoint_url endpoint ;;
  do client <- _get_client ;;
  do response <- client_request client (Request POST url JNull data) ;;
  do _ <- raise_for_status response ;;
  response_json response.

Definition put (endpoint : string) (data : json) : M json :=
  do url <- endpoint_url endpoint ;;
  do client <- _get_client ;;
  do response <- client_request client (Request PUT url JNull data) ;;
  do _ <- raise_for_status response ;;
  response_json response.

Definition delete (endpoint : string) : M json :=
  do url <- endpoint_url endpoint ;;
  do client <- _get_client ;;
  do response <- client_request client (Request DELETE url JNull JNull) ;;
  do _ <- raise_for_status response ;;
  response_json response.

Definition health_check : M bool :=
  try_except
    (fun s =>
       (do client <- _get_client ;;
        do response <- client_request client
                      (Request GET (base_url (self s) +:+ "/health") JNull JNull) ;;
        ret (status_code response =? 200)) s)
    (ret false).

(** A call of one of the four verb methods, and the request it makes. *)
Inductive verb_call :=
  | CallGet (endpoint : string) (params : json)
  | CallPost (endpoint : string) (data : json)
  | CallPut (endpoint : string) (data : json)
  | CallDelete (endpoint : string).

Definition call (c : verb_call) : M json :=
  match c with
  | CallGet endpoint params => get endpoint params
  | CallPost endpoint data => post endpoint data
  | CallPut endpoint data => put endpoint data
  | CallDelete endpoint => delete endpoint
  end.

Definition request_of (c : verb_call) (s : state) : request :=
  let u endpoint := urljoin (base_url (self s) +:+ "/") (lstrip_slash endpoint) in
  match c with
  | CallGet endpoint params => Request GET (u endpoint) params JNull
  | CallPost endpoint data => Request POST (u endpoint) JNull data
  | CallPut endpoint data => Request PUT (u endpoint) JNull data
  | CallDelete endpoint => Request DELETE (u endpoint) JNull JNull
  end.

(** The pool a request goes through: the one the instance holds, or the
    one constructed for the request.  [with_client s] is the state in which
    the request is sent, [after_request r s] the state it leaves. *)
Definition pool_of (s : state) : nat :=
  match client (self s) with
  | Some pool => pool
  | None => constructed s
  end.

Definition with_client (s : state) : state := snd (_get_client s).

Definition after_request (r : request) (s : state) : state :=
  snd (client_request (pool_of s) r (with_client s)).

(** What a verb method makes of the answer to its request. *)
Definition verb_result (answer : string + response) : res json :=
  match answer with
  | inl failure => Err (TransportError failure)
  | inr resp =>
      if is_success resp then
        match loads (content resp) with
        | Some j => Ok j
        | None => Err (JSONDecodeError (content resp))
        end
      else Err (HTTPStatusError (status_code resp) (content resp))
  end.

(** What a test does with an instance, one step at a time. *)
Inductive op :=
  | Verb (c : verb_call)
  | HealthCheck
  | Close.

Definition step (o : op) (s : state) : state :=
  match o with
  | Verb c => snd (call c s)
  | HealthCheck => snd (health_check s)
  | Close => snd (close s)
  end.

Definition run (ops : list op) (s : state) : state := foldl (fun s o => step o s) s ops.

(** A new instance in a network state [n], nothing having happened yet. *)
Definition fresh_state (base : string) (t : Z) (n : Net) : state :=
  {| self := __init__ base t; net := n; constructed := 0; events := [] |}.

(** The pools that have been constructed and not closed. *)
Fixpoint live (evs : list event) (acc : list nat) : list nat :=
  match evs with
  | [] => acc
  | Constructed pool _ :: evs' => live evs' (acc ++ [pool])
  | Closed pool :: evs' => live evs' (List.filter (fun p => negb (Nat.eqb p pool)) acc)
  | Sent _ _ :: evs' => live evs' acc
  end.

Definition pools_constructed (evs : list event) : list nat :=
  omap (fun e => match e with Constructed pool _ => Some pool | _ => None end) evs.

Definition pools_used (evs : list event) : list nat :=
  omap (fun e => match e with Sent pool _ => Some pool | _ => None end) evs.

Definition is_Close (o : op) : bool :=
  match o with
  | Close => true
  | _ => false
  end.

(** As long as the instance is not closed, the pool constructed first is
    the only one. *)
Definition first_pool_only (s : state) : Prop :=
  match client (self s) with
  | None => events s = [] /\ constructed s = 0%nat
  | Some pool =>
      pool = 0%nat /\ constructed s = 1%nat /\
      pools_constructed (events s) = [0%nat] /\
      Forall (fun p => p = 0%nat) (pools_used (events s))
  end.

(** *** The job-status predicates of the end-to-end tests *)

(** [_check_run_completed] of e2e/test_agent_recon.py *)
Definition _check_run_completed (run_id : string) : M bool :=
  try_except_Exception
    (do status <- get ("/runs/" +:+ run_id) JNull ;;
     fun s =>
       match getitem status "status" with
       | Ok v => ret (is_in v ["completed"; "failed"; "error"; "partial"]) s
       | Err e => raise e s
       end)
    (fun _ => ret false).

(** [check_completed] of e2e/test_agent_creds.py *)
Definition check_completed (run_id : string) : M bool :=
  do status <- get ("/runs/" +:+ run_id) JNull ;;
  fun s =>
    match getitem status "status" with
    | Ok v => ret (is_in v ["completed"; "failed"; "error"]) s
    | Err e => raise e s
    end.

End WithNetwork.

(** *** A concrete server, for closed examples

    The network state is the status of the one job the server knows; every
    request is answered 200 with the job record as body.  The decoder reads
    the bodies this server writes. *)
Definition job_server (r : request) (status : string) : (string + response) * string :=
  (inr (Response 200 status), status).

Definition job_loads (body : string) : option json :=
  Some (JObj {[ "status" := JStr body ]}).

(** A server that cannot be reached. *)
Definition unreachable_server (r : request) (n : unit) : (string + response) * unit :=
  (inl "connection refused", n).

Definition concat_url (base path : string) : string := base +:+ path.

(** The job record fetched for [run_id] in the state [s] is a 200 response
    whose decoded body is an object with the status [st]. *)
Definition fetches {Net : Type} (send : request -> Net -> (string + response) * Net)
    (loads : string -> option json) (urljoin : string -> string -> string)
    (run_id : string) (s : state) (st : string) : Prop :=
  exists resp n m,
    send (request_of urljoin (CallGet ("/runs/" +:+ run_id) JNull) s) (net s)
      = (inr resp, n) /\
    is_success resp = true /\
    loads (content resp) = Some (JObj m) /\
    m !! "status" = Some (JStr st).

(** The lifecycle statuses of a job record. *)
Definition terminal_statuses : list string :=
  ["completed"; "failed"; "error"; "partial"; "stopped"].

Definition non_terminal_statuses : list string := ["pending"; "running"].

End Client.

(** ** The job-status polls: what the end-to-end tests hand to the poller *)
Module CallSites.
Import Py Poller Client.

Section WithNetwork.
Context {Net : Type}.

(** What a test passes as [condition_func].  test_agent_creds.py passes
    the predicate itself, [check_completed], which is an [async def]:
    [asyncio.iscoroutinefunction] holds of it.  test_agent_recon.py passes
    [lambda: _check_run_completed(api_client, run_id)], a plain function
    whose call returns the coroutine object of the predicate. *)
Inductive passed :=
  | AsyncDef (predicate : M (Net:=Net) bool)
  | LambdaCalling (predicate : M (Net:=Net) bool).

(** Lines 118 to 121 of utils.py, in the state [s] of the instance and
    of the network.  A coroutine function is called and awaited: the
    predicate runs, and [result] is the boolean it returns, unless it
    raises.  Any other callable is only called, and [result] is what the
    call returns; for the lambda that is a coroutine object, which nobody
    awaits: the predicate does not run, nothing is raised, and the object
    is truthy in [if result:], as every object without [__bool__] and
    [__len__] is. *)
Definition call_condition (c : passed) (s : state) : outcome * state (Net:=Net) :=
  match c with
  | AsyncDef predicate =>
      match predicate s with
      | (Ok b, s') => (Returns b, s')
      | (Err e, s') => (Raises e, s')
      end
  | LambdaCalling _ => (Returns true, s)
  end.

(** The predicate as the poller observes it: [states n] is the state of
    the instance and of the network in which call number [n] is made (the
    job goes on between two polls), [latency n] the time the call takes. *)
Definition condition_func_of (c : passed) (states : nat -> state (Net:=Net))
    (latency : nat -> nat) : condition_func :=
  fun n _ => Invocation (fst (call_condition c (states n))) (latency n).

(** The states of a poll that nothing but its own calls changes. *)
Definition undisturbed (c : passed) (s : state (Net:=Net)) (n : nat) : state :=
  Nat.iter n (fun s => snd (call_condition c s)) s.

End WithNetwork.

End CallSites.

(** ** Truth tests on JSON values, as the search client makes them *)
Module Queries.
Import Py.

(** The truth value of [v] in [if v:]. *)
Definition truthy (v : json) : bool :=
  match v with
  | JNull => false
  | JBool b => b
  | JNum n => negb (n =? 0)%Z
  | JStr s => negb (String.eqb s "")
  | JList l => negb (Nat.eqb (length l) 0)
  | JObj m => negb (Nat.eqb (size m) 0)
  end.

End Queries.

(** ** [mask_sensitive_data] of utils.py *)
Module Masking.
Import Py.

(** Dictionaries are objects: a value is an immediate value or the
    address of an object, and the heap maps the address of a dictionary to
    its entries. *)
Inductive value :=
  | VNone
  | VBool (b : bool)
  | VInt (n : Z)
  | VStr (s : string)
  | VRef (address : positive).

Definition default_sensitive_fields : list string :=
  ["password"; "secret"; "token"; "key"; "api_key"].

Definition MASKED : value := VStr "***MASKED***".

(** [d.copy()]: a new dictionary with the entries of [d]. *)
Definition dict_copy (d : positive) (h : gmap positive (gmap string value))
    : option (positive * gmap positive (gmap string value)) :=
  match h !! d with
  | Some entries => let d' := fresh (dom h) in Some (d', <[d' := entries]> h)
  | None => None
  end.

(** [key in d] *)
Definition dict_contains (d : positive) (key : string)
    (h : gmap positive (gmap string value)) : bool :=
  match h !! d with
  | Some entries => bool_decide (is_Some (entries !! key))
  | None => false
  end.

(** [d[key] = v] *)
Definition dict_setitem (d : positive) (key : string) (v : value)
    (h : gmap positive (gmap string value)) : gmap positive (gmap string value) :=
  alter (fun entries => <[key := v]> entries) d h.

(** [mask_sensitive_data(data, sensitive_fields)], on the heap [h]:
    [None] when [data] is not the address of a dictionary, and else the
    address returned and the heap left. *)
Definition mask_sensitive_data (data : positive) (sensitive_fields : option (list string))
    (h : gmap positive (gmap string value))
    : option (positive * gmap positive (gmap string value)) :=
  let sensitive_fields :=
    match sensitive_fields with
    | None => default_sensitive_fields
    | Some fields => fields
    end in
  match dict_copy data h with
  | Some (masked_data, h1) =>
      Some (masked_data,
            foldl (fun h field =>
                     if dict_contains masked_data field h
                     then dict_setitem masked_data field MASKED h
                     else h)
                  h1 sensitive_fields)
  | None => None
  end.

(** A heap for closed examples: a request body at address 1, whose
    [auth] entry is the dictionary at address 2. *)
Definition login_heap : gmap positive (gmap string value) :=
  {[ 1%positive := {[ "user" := VStr "alice"; "password" := VStr "hunter2";
                      "auth" := VRef 2 ]};
     2%positive := {[ "token" := VStr "abc" ]} ]}.

End Masking.

(** ** The query builders: class [OpenSearchQueries] of os_queries.py *)
Module OpenSearchQueries.
Import Py Masking.

(** The builders make dictionaries and are handed lists: the objects of
    the heap are dictionaries and lists, and a value is an immediate value
    or the address of an object. *)
Inductive object :=
  | Dict (entries : gmap string value)
  | List (items : list value).

Section WithWorld.

(** [World] is the state of everything a Python function can reach
    besides the objects of the heap: the standard output, the files, the
    connections of the search client, the globals of the module. *)
Context {World : Type}.

Record state := State { heap : gmap positive object; world : World }.

(** Code that reads and writes the heap and the world. *)
Definition M (A : Type) : Type := state -> A * state.

Definition ret {A} (a : A) : M A := fun s => (a, s).

Definition bind {A B} (m : M A) (k : A -> M B) : M B :=
  fun s => let (a, s') := m s in k a s'.

Notation "'do' x <- m ;; k" := (bind m (fun x => k))
  (at level 10, x name, m at level 99, k at level 200).

(** A dictionary display [{k: v, ...}]: a new object. *)
Definition new_dict (entries : gmap string value) : M positive :=
  fun s =>
    let d := fresh (dom (heap s)) in
    (d, {| heap := <[d := Dict entries]> (heap s); world := world s |}).

(** [d[key] = v] for a dictionary [d]; the builders subscript only the
    dictionaries they have made. *)
Definition dict_setitem (d : positive) (key : string) (v : value) : M unit :=
  fun s =>
    (tt,
     {| heap := alter (fun o => match o with
                                | Dict entries => Dict (<[key := v]> entries)
                                | List items => List items
                                end) d (heap s);
        world := world s |}).

(** [v is not None] *)
Definition is_not_None (v : value) : bool :=
  match v with
  | VNone => false
  | _ => true
  end.

(** The truth value of [v] in [if v:]: a dictionary or a list is true
    when it is not empty.  Every address a program holds is the address of
    an object, so the last case does not arise. *)
Definition truth (h : gmap positive object) (v : value) : bool :=
  match v with
  | VNone => false
  | VBool b => b
  | VInt n => negb (n =? 0)%Z
  | VStr str => negb (String.eqb str "")
  | VRef a =>
      match h !! a with
      | Some (Dict entries) => negb (Nat.eqb (size entries) 0)
      | Some (List items) => negb (Nat.eqb (length items) 0)
      | None => true
      end
  end.

Definition truthy (v : value) : M bool := fun s => (truth (heap s) v, s).

Definition match_all : M positive :=
  do inner <- new_dict ∅ ;;
  new_dict {[ "match_all" := VRef inner ]}.

Definition term_query (field : string) (value : Masking.value) : M positive :=
  do inner <- new_dict {[ field := value ]} ;;
  new_dict {[ "term" := VRef inner ]}.

(** [values] is the list the caller holds: the expression refers to it. *)
Definition terms_query (field : string) (values : value) : M positive :=
  do inner <- new_dict {[ field := values ]} ;;
  new_dict {[ "terms" := VRef inner ]}.

(** The bounds are of any type; a bound left out is [None]. *)
Definition range_query (field : string) (gte lte gt lt : value) : M positive :=
  do range_params <- new_dict ∅ ;;
  do _ <- (if is_not_None gte then dict_setitem range_params "gte" gte else ret tt) ;;
  do _ <- (if is_not_None lte then dict_setitem range_params "lte" lte else ret tt) ;;
  do _ <- (if is_not_None gt then dict_setitem range_params "gt" gt else ret tt) ;;
  do _ <- (if is_not_None lt then dict_setitem range_params "lt" lt else ret tt) ;;
  do inner <- new_dict {[ field := VRef range_params ]} ;;
  new_dict {[ "range" := VRef inner ]}.

(** Each clause is a list of queries or [None]. *)
Definition bool_query (must should must_not filter : value) : M positive :=
  do bool_params <- new_dict ∅ ;;
  do given <- truthy must ;;
  do _ <- (if given then dict_setitem bool_params "must" must else ret tt) ;;
  do given <- truthy should ;;
  do _ <- (if given then dict_setitem bool_params "should" should else ret tt) ;;
  do given <- truthy must_not ;;
  do _ <- (if given then dict_setitem bool_params "must_not" must_not else ret tt) ;;
  do given <- truthy filter ;;
  do _ <- (if given then dict_setitem bool_params "filter" filter else ret tt) ;;
  new_dict {[ "bool" := VRef bool_params ]}.

Definition exists_query (field : string) : M positive :=
  do inner <- new_dict {[ "field" := VStr field ]} ;;
  new_dict {[ "exists" := VRef inner ]}.

Definition wildcard_query (field : string) (pattern : value) : M positive :=
  do inner <- new_dict {[ field := pattern ]} ;;
  new_dict {[ "wildcard" := VRef inner ]}.

Definition time_range_query (field : string) (start_time end_time : value)
    : M positive :=
  range_query field start_time end_time VNone VNone.

(** *** What the properties of the builders are stated with *)

(** The computation [b], run in the state [s], only builds: it returns
    the address [r] of one of the objects [new], all of which are at
    addresses that held nothing in [s]; it leaves every object of [s] as
    it was, and the world as it was. *)
Definition builds (b : M positive) (s : state) (r : positive)
    (new : gmap positive object) : Prop :=
  exists s',
    b s = (r, s') /\
    world s' = world s /\
    heap s' = new ∪ heap s /\
    (forall a, a ∈ dom new -> heap s !! a = None) /\
    (forall a o, heap s !! a = Some o -> heap s' !! a = Some o) /\
    is_Some (new !! r).

(** A value of the heap [h]: an address is the address of an object. *)
Definition valid (h : gmap positive object) (v : value) : Prop :=
  match v with
  | VRef a => is_Some (h !! a)
  | _ => True
  end.

(** The entry a builder makes for an argument: none for an argument that
    its test rejects. *)
Definition entry (keeps : bool) (v : value) : option value :=
  if keeps then Some v else None.

(** The parameters a range query is expected to hold, key by key. *)
Definition range_bounds (gte lte gt lt : value) (key : string) : option value :=
  if String.eqb key "gte" then entry (is_not_None gte) gte
  else if String.eqb key "lte" then entry (is_not_None lte) lte
  else if String.eqb key "gt" then entry (is_not_None gt) gt
  else if String.eqb key "lt" then entry (is_not_None lt) lt
  else None.

(** The clauses a boolean query is expected to hold, key by key, for
    arguments taken from the heap [h]. *)
Definition bool_clauses (h : gmap positive object) (must should must_not filter : value)
    (key : string) : option value :=
  if String.eqb key "must" then entry (truth h must) must
  else if String.eqb key "should" then entry (truth h should) should
  else if String.eqb key "must_not" then entry (truth h must_not) must_not
  else if String.eqb key "filter" then entry (truth h filter) filter
  else None.

End WithWorld.

(** A heap for closed examples: the list of two term queries a test
    passes as [must], and an empty list. *)
Definition clauses_heap : gmap positive object :=
  {[ 1%positive := List [VRef 2; VRef 4];
     2%positive := Dict {[ "term" := VRef 3 ]};
     3%positive := Dict {[ "agent" := VStr "recon" ]};
     4%positive := Dict {[ "term" := VRef 5 ]};
     5%positive := Dict {[ "tool" := VStr "nmap" ]};
     6%positive := List [] ]}.

End OpenSearchQueries.

(** ** The decorator [retry_on_failure] of utils.py *)
Module Retry.
Import Py.
Local Open Scope Z_scope.

Section WithDelays.

(** The delays are floats: [num] is their type and [mul] their product
    ([current_delay *= backoff]).  [A] is the type of what the decorated
    function returns. *)
Context {num : Type} (mul : num -> num -> num).
Context {A : Type}.

(** The two [print] calls of the wrapper. *)
Inductive line :=
  | AttemptFailed (attempt : Z) (e : exn) (current_delay : num)
      (* print(f"Attempt {attempt + 1} failed: {e}. Retrying in {current_delay}s...") *)
  | AllFailed (attempts : Z).
      (* print(f"All {max_retries + 1} attempts failed") *)

(** What a call of the wrapper has done: the number of calls made to the
    decorated function, the delays slept in order, the lines printed. *)
Record world := World { calls : nat; sleeps : list num; stdout : list line }.

Definition called (w : world) : world :=
  {| calls := S (calls w); sleeps := sleeps w; stdout := stdout w |}.

Definition print (l : line) (w : world) : world :=
  {| calls := calls w; sleeps := sleeps w; stdout := stdout w ++ [l] |}.

Definition sleep (d : num) (w : world) : world :=
  {| calls := calls w; sleeps := sleeps w ++ [d]; stdout := stdout w |}.

(** The [for attempt in range(max_retries + 1)] loop of the wrapper and
    the [raise last_exception] that follows it.  [func n] is what the call
    number [n] of the decorated function does.  Raising [None] is a
    TypeError. *)
Fixpoint attempts (range : list nat) (func : nat -> res A) (max_retries : Z)
    (backoff : num) (last_exception : option exn) (current_delay : num)
    (w : world) : res A * world :=
  match range with
  | [] =>
      match last_exception with
      | Some e => (Err e, w)
      | None =>
          (Err (OtherException "TypeError" "exceptions must derive from BaseException"), w)
      end
  | attempt :: range' =>
      match func (calls w) with
      | Ok a => (Ok a, called w)
      | Err e =>
          if isinstance_Exception e then
            if Z.of_nat attempt <? max_retries then
              attempts range' func max_retries backoff (Some e)
                (mul current_delay backoff)
                (sleep current_delay
                   (print (AttemptFailed (Z.of_nat attempt + 1) e current_delay)
                      (called w)))
            else
              attempts range' func max_retries backoff (Some e) current_delay
                (print (AllFailed (max_retries + 1)) (called w))
          else (Err e, called w)
      end
  end.

(** A call of [retry_on_failure(max_retries, delay, backoff)(func)]. *)
Definition retry_on_failure (max_retries : Z) (delay backoff : num)
    (func : nat -> res A) : res A * world :=
  attempts (seq 0 (Z.to_nat (max_retries + 1))) func max_retries backoff None delay
    {| calls := 0; sleeps := []; stdout := [] |}.

(** The first [k] delays: [delay], [delay * backoff], ... *)
Fixpoint delays (delay backoff : num) (k : nat) : list num :=
  match k with
  | O => []
  | S k' => delay :: delays (mul delay backoff) backoff k'
  end.

(** A call after which the wrapper does not retry: the function returned,
    or it raised something that is not an [Exception]. *)
Definition final (r : res A) : Prop :=
  match r with
  | Ok _ => True
  | Err e => isinstance_Exception e = false
  end.

End WithDelays.

(** A function that fails with a transport error twice, then answers. *)
Definition third_time_lucky (n : nat) : res string :=
  match n with
  | 0%nat | 1%nat => Err (TransportError "connection reset")
  | _ => Ok "done"
  end.

(** A function that fails at every call, each time with another message. *)
Definition never_lucky (n : nat) : res string :=
  Err (TransportError (String (Ascii.ascii_of_nat (48 + n)) "")).

End Retry.

(** ** The class [DataManager] of utils.py *)
Module Resources.
Import Py.

(** An entry of [created_resources].  The cleanup function is a callable
    or [None]; [cleanup_func id] is what calling it on the id does. *)
Record resource := Resource {
  resource_type : string;
  resource_id : string;
  cleanup_func : option (string -> res unit)
}.

(** What [cleanup_all] does outside the instance, in order: it calls a
    cleanup function on an id, and it prints one of its two lines. *)
Inductive event :=
  | Invoked (resource_id : string)
  | CleanedUp (resource_type resource_id : string)
      (* print(f"Cleaned up {resource['type']}: {resource['id']}") *)
  | FailedToCleanup (resource_type resource_id : string) (e : exn).
      (* print(f"Failed to cleanup {resource['type']} {resource['id']}: {e}") *)

(** The instance ([self.created_resources]) and what has happened. *)
Record state := State { created_resources : list resource; events : list event }.

Definition __init__ : state := {| created_resources := []; events := [] |}.

Definition track_resource (resource_type resource_id : string)
    (cleanup_func : option (string -> res unit)) (s : state) : state :=
  {| created_resources :=
       created_resources s ++ [Resource resource_type resource_id cleanup_func];
     events := events s |}.

(** The body of the loop of [cleanup_all] for one resource: the exception
    that leaves it, if any, and the events. *)
Definition cleanup_one (r : resource) (evs : list event) : option exn * list event :=
  match cleanup_func r with
  | None => (None, evs ++ [CleanedUp (resource_type r) (resource_id r)])
  | Some f =>
      match f (resource_id r) with
      | Ok _ =>
          (None, evs ++ [Invoked (resource_id r);
                         CleanedUp (resource_type r) (resource_id r)])
      | Err e =>
          if isinstance_Exception e then
            (None, evs ++ [Invoked (resource_id r);
                           FailedToCleanup (resource_type r) (resource_id r) e])
          else (Some e, evs ++ [Invoked (resource_id r)])
      end
  end.

Fixpoint cleanup_loop (rs : list resource) (evs : list event) : option exn * list event :=
  match rs with
  | [] => (None, evs)
  | r :: rs' =>
      match cleanup_one r evs with
      | (None, evs') => cleanup_loop rs' evs'
      | (Some e, evs') => (Some e, evs')
      end
  end.

(** [cleanup_all]: the loop over [reversed(self.created_resources)], then
    [self.created_resources.clear()]. *)
Definition cleanup_all (s : state) : res unit * state :=
  match cleanup_loop (rev (created_resources s)) (events s) with
  | (None, evs) => (Ok tt, {| created_resources := []; events := evs |})
  | (Some e, evs) => (Err e, {| created_resources := created_resources s; events := evs |})
  end.

(** The ids on which a cleanup function was called, in order. *)
Definition invoked (evs : list event) : list string :=
  omap (fun e => match e with Invoked i => Some i | _ => None end) evs.

(** The resources reported, in order, each with the outcome printed. *)
Definition reported (evs : list event) : list (string * bool) :=
  omap (fun e => match e with
                 | CleanedUp _ i => Some (i, true)
                 | FailedToCleanup _ i _ => Some (i, false)
                 | Invoked _ => None
                 end) evs.

(** Whether the line printed for a resource says it was cleaned up: it
    has no cleanup function, or the function returned. *)
Definition cleaned (r : resource) : bool :=
  match cleanup_func r with
  | None => true
  | Some f =>
      match f (resource_id r) with
      | Ok _ => true
      | Err _ => false
      end
  end.

(** The ids of the resources that have a cleanup function. *)
Definition with_cleanup (rs : list resource) : list string :=
  omap (fun r => match cleanup_func r with
                 | Some _ => Some (resource_id r)
                 | None => None
                 end) rs.

(** No cleanup function of [rs] raises anything but an [Exception]. *)
Definition cleanups_raise_only_Exception (rs : list resource) : Prop :=
  forall r f e, r ∈ rs -> cleanup_func r = Some f -> f (resource_id r) = Err e ->
                isinstance_Exception e = true.

Definition ok_cleanup (i : string) : res unit := Ok tt.

Definition failing_cleanup (i : string) : res unit :=
  Err (OtherException "RuntimeError" "index is gone").

Definition interrupted_cleanup (i : string) : res unit :=
  Err (ControlSignal "KeyboardInterrupt").

End Resources.

(** ** [extract_nested_field] of utils.py *)
Module Nested.
Import Py.

(** [s.split('.')]: the parts between the dots, at least one part. *)
Fixpoint split_dot (s : string) : list string :=
  match s with
  | EmptyString => [""]
  | String c s' =>
      if Ascii.eqb c "."%char then "" :: split_dot s'
      else
        match split_dot s' with
        | part :: parts => String c part :: parts
        | [] => [String c ""]
        end
  end.

(** The loop [for key in ...: value = value[key]]. *)
Fixpoint walk (value : json) (keys : list string) : res json :=
  match keys with
  | [] => Ok value
  | key :: keys' =>
      match getitem value key with
      | Ok v => walk v keys'
      | Err e => Err e
      end
  end.

(** [extract_nested_field(data, field_path, default)]: the handler is
    [except (KeyError, TypeError)]. *)
Definition extract_nested_field (data : json) (field_path : string) (default : json)
    : res json :=
  match walk data (split_dot field_path) with
  | Ok value => Ok value
  | Err (KeyError key) => Ok default
  | Err (OtherException cls msg) =>
      if String.eqb cls "TypeError" then Ok default
      else Err (OtherException cls msg)
  | Err e => Err e
  end.

(** ['.'.join(parts)] *)
Fixpoint join_dot (parts : list string) : string :=
  match parts with
  | [] => ""
  | [part] => part
  | part :: parts' => part +:+ "." +:+ join_dot parts'
  end.

(** The string holds no dot, or holds one. *)
Fixpoint dot_free (s : string) : bool :=
  match s with
  | EmptyString => true
  | String c s' => negb (Ascii.eqb c "."%char) && dot_free s'
  end.

(** The document [{k1: {k2: ... {kn: v}}}]. *)
Fixpoint nested (keys : list string) (v : json) : json :=
  match keys with
  | [] => v
  | key :: keys' => JObj {[ key := nested keys' v ]}
  end.

End Nested.

(** ** [validate_response_schema] of utils.py *)
Module Schema.
Import Py.

(** How a call ends: it returns [True], or it raises
    [AssertionError(f"Missing required fields: {missing_fields}")]. *)
Inductive outcome :=
  | ReturnsTrue
  | RaisesAssertionError (missing_fields : list string).

(** [field in response], for a dictionary given by its items in order. *)
Definition has_field (response : list (string * json)) (field : string) : bool :=
  bool_decide (field ∈ map fst response).

(** [validate_response_schema(response, required_fields, optional_fields)]:
    how the call ends, and the list printed in the warning, if one is
    printed. *)
Definition validate_response_schema (response : list (string * json))
    (required_fields : list string) (optional_fields : option (list string))
    : outcome * option (list string) :=
  let optional_fields :=
    match optional_fields with
    | Some (f :: fs) => f :: fs
    | _ => []
    end in
  let missing_fields :=
    List.filter (fun field => negb (has_field response field)) required_fields in
  match missing_fields with
  | _ :: _ => (RaisesAssertionError missing_fields, None)
  | [] =>
      let allowed_fields := required_fields ++ optional_fields in
      let unexpected_fields :=
        List.filter (fun field => negb (bool_decide (field ∈ allowed_fields)))
          (map fst response) in
      match unexpected_fields with
      | _ :: _ => (ReturnsTrue, Some unexpected_fields)
      | [] => (ReturnsTrue, None)
      end
  end.

End Schema.

(** ** The class [TestMetrics] of utils.py *)
Module Metrics.

Section WithNumbers.

(** The values are Python numbers (clock readings and durations are
    floats): [num] is their type, with its zero, sum and difference. *)
Context {num : Type} (zero : num) (add sub : num -> num -> num).

(** The instance: [self.metrics] and [self.start_times]. *)
Record TestMetrics := Instance {
  metrics : gmap string num;
  start_times : gmap string num
}.

Definition __init__ : TestMetrics := {| metrics := ∅; start_times := ∅ |}.

(** [start_timer(name)] when [time.time()] reads [now]. *)
Definition start_timer (name : string) (now : num) (s : TestMetrics) : TestMetrics :=
  {| metrics := metrics s; start_times := <[name := now]> (start_times s) |}.

(** [end_timer(name)] when [time.time()] reads [now]: the duration
    returned and the instance left. *)
Definition end_timer (name : string) (now : num) (s : TestMetrics) : num * TestMetrics :=
  match start_times s !! name with
  | Some started =>
      let duration := sub now started in
      (duration,
       {| metrics := <[name +:+ "_duration" := duration]> (metrics s);
          start_times := delete name (start_times s) |})
  | None => (zero, s)
  end.

Definition increment_counter (name : string) (value : num) (s : TestMetrics)
    : TestMetrics :=
  {| metrics := <[name := add (default zero (metrics s !! name)) value]> (metrics s);
     start_times := start_times s |}.

Definition set_gauge (name : string) (value : num) (s : TestMetrics) : TestMetrics :=
  {| metrics := <[name := value]> (metrics s); start_times := start_times s |}.

Definition get_metrics (s : TestMetrics) : gmap string num := metrics s.

Definition reset (s : TestMetrics) : TestMetrics := {| metrics := ∅; start_times := ∅ |}.

End WithNumbers.

End Metrics.

(** ** The classes [OpenSearchClient] and [TestDataHelper] of os_queries.py *)
Module Search.
Import Py.
Local Open Scope Z_scope.

(** The calls the wrapper makes on the [AsyncOpenSearch] client. *)
Inductive api :=
  | ClusterHealth                                     (* client.cluster.health() *)
  | IndicesExists (index : string)                    (* client.indices.exists(index=) *)
  | IndicesCreate (index : string) (body : json)      (* client.indices.create(index=, body=) *)
  | IndicesDelete (index : string)                    (* client.indices.delete(index=) *)
  | IndicesRefresh (index : string)                   (* client.indices.refresh(index=) *)
  | SearchDocs (index : string) (body : json)         (* client.search(index=, body=) *)
  | GetDoc (index : string) (id : json)               (* client.get(index=, id=) *)
  | IndexDoc (index : string) (id : json) (body : json) (* client.index(index=, [id=,] body=) *)
  | DeleteDoc (index : string) (id : json)            (* client.delete(index=, id=) *)
  | CountDocs (index : string) (body : json).         (* client.count(index=, body=) *)

(** The arguments [_get_client] constructs the client with (the constants
    [http_compress=True], [max_retries=3], [retry_on_timeout=True] are left
    out). *)
Record settings := Settings {
  hosts : string * Z;
  http_auth : option (string * string);
  use_ssl : bool;
  settings_verify_certs : bool;
  settings_timeout : Z
}.

Inductive line :=
  | FailedToCreateIndex (index_name : string) (e : exn)
      (* print(f"Failed to create index {index_name}: {e}") *)
  | CreatedTestIndex (index_name : string)
      (* print(f"Created test index: {index_name}") *)
  | FailedToSetup (e : exn).
      (* print(f"Failed to setup test indices: {e}") *)

(** What happens outside the instance, in order.  Clients are numbered in
    the order of construction. *)
Inductive event :=
  | Constructed (client : nat) (cfg : settings)
  | Called (client : nat) (a : api)
  | Closed (client : nat)
  | Printed (l : line).

Record OpenSearchClient := Instance {
  host : string;
  port : Z;
  scheme : string;
  username : string;
  password : string;
  verify_certs : bool;
  timeout : Z;
  client : option nat
}.

Definition __init__ (host : string) (port : Z) (scheme username password : string)
    (verify_certs : bool) (timeout : Z) : OpenSearchClient :=
  Instance host port scheme username password verify_certs timeout None.

(** [TestDataHelper]: [self.created_indices] and [self.created_documents]
    ([self.client] is the wrapper the state below holds). *)
Record TestDataHelper := Helper {
  created_indices : gset string;
  created_documents : list (string * json)
}.

Section WithBackend.

(** The search cluster is not part of the repository: [backend a n] is
    what the client answers to the call [a] when the cluster is in the
    state [n], a value or an exception, and the state the call leaves. *)
Context {Net : Type}.
Context (backend : api -> Net -> res json * Net).

Record state := State {
  self : OpenSearchClient;
  net : Net;
  constructed : nat;
  events : list event
}.

Definition M (A : Type) : Type := state -> res A * state.

Definition ret {A} (a : A) : M A := fun s => (Ok a, s).

Definition bind {A B} (m : M A) (k : A -> M B) : M B :=
  fun s =>
    match m s with
    | (Ok a, s') => k a s'
    | (Err e, s') => (Err e, s')
    end.

Notation "'do' x <- m ;; k" := (bind m (fun x => k))
  (at level 10, x name, m at level 99, k at level 200).

(** A computation that touches no state. *)
Definition lift {A} (r : res A) : M A := fun s => (r, s).

(** [try: body / except Exception as e: handler] *)
Definition try_except_Exception {A} (body : M A) (handler : exn -> M A) : M A :=
  fun s =>
    match body s with
    | (Ok a, s') => (Ok a, s')
    | (Err e, s') => if isinstance_Exception e then handler e s' else (Err e, s')
    end.

Definition emit (e : event) : M unit :=
  fun s =>
    (Ok tt,
     {| self := self s; net := net s; constructed := constructed s;
        events := events s ++ [e] |}).

Definition non_empty (s : string) : bool := negb (String.eqb s "").

(** The settings of the client the instance constructs. *)
Definition settings_of (o : OpenSearchClient) : settings :=
  {| hosts := (host o, port o);
     http_auth := if non_empty (username o) && non_empty (password o)
                  then Some (username o, password o) else None;
     use_ssl := String.eqb (scheme o) "https";
     settings_verify_certs := verify_certs o;
     settings_timeout := timeout o |}.

Definition _get_client : M nat :=
  fun s =>
    match client (self s) with
    | Some c => (Ok c, s)
    | None =>
        let c := constructed s in
        let o := self s in
        (Ok c,
         {| self := Instance (host o) (port o) (scheme o) (username o) (password o)
                      (verify_certs o) (timeout o) (Some c);
            net := net s; constructed := S c;
            events := events s ++ [Constructed c (settings_of o)] |})
    end.

(** [close] closes the client and keeps it in [self.client]. *)
Definition close : M unit :=
  fun s =>
    match client (self s) with
    | Some c => emit (Closed c) s
    | None => ret tt s
    end.

(** A call on the client. *)
Definition call (a : api) (c : nat) : M json :=
  fun s =>
    let (r, n) := backend a (net s) in
    (r, {| self := self s; net := n; constructed := constructed s;
           events := events s ++ [Called c a] |}).

Definition cluster_health : M bool :=
  try_except_Exception
    (do client <- _get_client ;;
     do health <- call ClusterHealth client ;;
     do status <- lift (getitem health "status") ;;
     ret (is_in status ["green"; "yellow"]))
    (fun _ => ret false).

Definition index_exists (index_name : string) : M json :=
  try_except_Exception
    (do client <- _get_client ;;
     call (IndicesExists index_name) client)
    (fun _ => ret (JBool false)).

Definition create_index (index_name : string) (mapping : json) : M bool :=
  try_except_Exception
    (do client <- _get_client ;;
     let body : gmap string json := ∅ in
     let body := if Queries.truthy mapping then <["mappings" := mapping]> body else body in
     do _ <- call (IndicesCreate index_name (JObj body)) client ;;
     ret true)
    (fun e =>
       do _ <- emit (Printed (FailedToCreateIndex index_name e)) ;;
       ret false).

Definition delete_index (index_name : string) : M bool :=
  try_except_Exception
    (do client <- _get_client ;;
     do _ <- call (IndicesDelete index_name) client ;;
     ret true)
    (fun _ => ret false).

Definition search (index : string) (query : json) (size : Z) (sort source : json)
    : M json :=
  do client <- _get_client ;;
  let body : gmap string json := <["size" := JNum size]> (<["query" := query]> ∅) in
  let body := if Queries.truthy sort then <["sort" := sort]> body else body in
  let body := if Queries.truthy source then <["_source" := source]> body else body in
  call (SearchDocs index (JObj body)) client.

Definition get_document (index : string) (doc_id : json) : M json :=
  try_except_Exception
    (do client <- _get_client ;;
     do response <- call (GetDoc index doc_id) client ;;
     lift (getitem response "_source"))
    (fun _ => ret JNull).

Definition index_document (index : string) (document : json) (doc_id : json) : M json :=
  do client <- _get_client ;;
  if Queries.truthy doc_id then
    do _ <- call (IndexDoc index doc_id document) client ;;
    ret doc_id
  else
    do response <- call (IndexDoc index JNull document) client ;;
    lift (getitem response "_id").

Definition delete_document (index : string) (doc_id : json) : M bool :=
  try_except_Exception
    (do client <- _get_client ;;
     do _ <- call (DeleteDoc index doc_id) client ;;
     ret true)
    (fun _ => ret false).

Definition count_documents (index : string) (query : json) : M json :=
  do client <- _get_client ;;
  let body : gmap string json := ∅ in
  let body := if Queries.truthy query then <["query" := query]> body else body in
  do response <- call (CountDocs index (JObj body)) client ;;
  lift (getitem response "count").

Definition refresh_index (index : string) : M bool :=
  try_except_Exception
    (do client <- _get_client ;;
     do _ <- call (IndicesRefresh index) client ;;
     ret true)
    (fun _ => ret false).

(** *** [TestDataHelper] *)

(** The loop of [setup_test_indices] over [indices_config.items()]: the
    exception that leaves it, if any, the helper and the state. *)
Fixpoint setup_loop (items : list (string * gmap string json))
    (h : TestDataHelper) (s : state) : option exn * TestDataHelper * state :=
  match items with
  | [] => (None, h, s)
  | (index_name, config) :: items' =>
      let mapping := default JNull (config !! "mapping") in
      match index_exists index_name s with
      | (Err e, s1) => (Some e, h, s1)
      | (Ok found, s1) =>
          if Queries.truthy found then
            match refresh_index index_name s1 with
            | (Err e, s2) => (Some e, h, s2)
            | (Ok _, s2) => setup_loop items' h s2
            end
          else
            match create_index index_name mapping s1 with
            | (Err e, s2) => (Some e, h, s2)
            | (Ok _, s2) =>
                let h' := {| created_indices := {[ index_name ]} ∪ created_indices h;
                             created_documents := created_documents h |} in
                match emit (Printed (CreatedTestIndex index_name)) s2 with
                | (_, s3) =>
                    match refresh_index index_name s3 with
                    | (Err e, s4) => (Some e, h', s4)
                    | (Ok _, s4) => setup_loop items' h' s4
                    end
                end
            end
      end
  end.

Definition setup_test_indices (indices_config : list (string * gmap string json))
    (h : TestDataHelper) (s : state) : res bool * TestDataHelper * state :=
  match setup_loop indices_config h s with
  | (None, h', s') => (Ok true, h', s')
  | (Some e, h', s') =>
      if isinstance_Exception e then
        (Ok false, h', snd (emit (Printed (FailedToSetup e)) s'))
      else (Err e, h', s')
  end.

(** The loop of [cleanup_test_data] over [self.created_documents]. *)
Fixpoint cleanup_loop (documents : list (string * json)) (s : state)
    : option exn * state :=
  match documents with
  | [] => (None, s)
  | (index, doc_id) :: documents' =>
      match delete_document index doc_id s with
      | (Ok _, s') => cleanup_loop documents' s'
      | (Err e, s') =>
          if isinstance_Exception e then cleanup_loop documents' s'
          else (Some e, s')
      end
  end.

Definition cleanup_test_data (h : TestDataHelper) (s : state)
    : res unit * TestDataHelper * state :=
  match cleanup_loop (created_documents h) s with
  | (None, s') =>
      (Ok tt, {| created_indices := created_indices h; created_documents := [] |}, s')
  | (Some e, s') => (Err e, h, s')
  end.

(** *** Runs of an instance *)

Inductive op :=
  | OpClusterHealth
  | OpIndexExists (index_name : string)
  | OpCreateIndex (index_name : string) (mapping : json)
  | OpDeleteIndex (index_name : string)
  | OpSearch (index : string) (query : json) (size : Z) (sort source : json)
  | OpGetDocument (index : string) (doc_id : json)
  | OpIndexDocument (index : string) (document doc_id : json)
  | OpDeleteDocument (index : string) (doc_id : json)
  | OpCountDocuments (index : string) (query : json)
  | OpRefreshIndex (index : string)
  | OpClose.

Definition step (o : op) (s : state) : state :=
  match o with
  | OpClusterHealth => snd (cluster_health s)
  | OpIndexExists i => snd (index_exists i s)
  | OpCreateIndex i m => snd (create_index i m s)
  | OpDeleteIndex i => snd (delete_index i s)
  | OpSearch i q size sort source => snd (search i q size sort source s)
  | OpGetDocument i d => snd (get_document i d s)
  | OpIndexDocument i doc d => snd (index_document i doc d s)
  | OpDeleteDocument i d => snd (delete_document i d s)
  | OpCountDocuments i q => snd (count_documents i q s)
  | OpRefreshIndex i => snd (refresh_index i s)
  | OpClose => snd (close s)
  end.

Definition run (ops : list op) (s : state) : state := foldl (fun s o => step o s) s ops.

Definition is_Close (o : op) : bool :=
  match o with
  | OpClose => true
  | _ => false
  end.

Definition fresh_state (o : OpenSearchClient) (n : Net) : state :=
  {| self := o; net := n; constructed := 0; events := [] |}.

Definition clients_constructed (evs : list event) : list nat :=
  omap (fun e => match e with Constructed c _ => Some c | _ => None end) evs.

Definition clients_called (evs : list event) : list nat :=
  omap (fun e => match e with Called c _ => Some c | _ => None end) evs.

Definition clients_closed (evs : list event) : list nat :=
  omap (fun e => match e with Closed c => Some c | _ => None end) evs.

Definition calls_made (evs : list event) : list api :=
  omap (fun e => match e with Called _ a => Some a | _ => None end) evs.

(** The client of the instance and the state in which a call is made. *)
Definition client_of (s : state) : nat :=
  match client (self s) with
  | Some c => c
  | None => constructed s
  end.

Definition with_client (s : state) : state := snd (_get_client s).

(** The instance has constructed at most the client number 0, and every
    call went through it. *)
Definition single_client (s : state) : Prop :=
  match client (self s) with
  | None => constructed s = 0%nat /\ events s = []
  | Some c =>
      c = 0%nat /\ constructed s = 1%nat /\
      clients_constructed (events s) = [0%nat] /\
      Forall (fun c => c = 0%nat) (clients_called (events s)) /\
      Forall (fun c => c = 0%nat) (clients_closed (events s))
  end.

(** Whether the call [a] succeeds in the state [s]. *)
Definition succeeds (a : api) (s : state) : bool :=
  match fst (backend a (net s)) with
  | Ok _ => true
  | Err _ => false
  end.

(** The body [create_index] sends. *)
Definition create_body (mapping : json) : json :=
  JObj (if Queries.truthy mapping then <["mappings" := mapping]> ∅ else ∅).

(** The client raises nothing but [Exception]s. *)
Definition backend_raises_only_Exception : Prop :=
  forall a n e, fst (backend a n) = Err e -> isinstance_Exception e = true.

(** The cluster cannot be reached: every call raises an [Exception]. *)
Definition backend_down : Prop :=
  forall a n, exists e, fst (backend a n) = Err e /\ isinstance_Exception e = true.

End WithBackend.

(** A cluster that refuses every connection, for closed examples. *)
Definition refusing (a : api) (n : unit) : res json * unit :=
  (Err (TransportError "connection refused"), n).

(** A cluster that answers every call with an empty object. *)
Definition agreeing (a : api) (n : unit) : res json * unit := (Ok (JObj ∅), n).

Definition local_client : OpenSearchClient :=
  __init__ "localhost" 9200 "http" "" "" false 30.

End Search.

(** ** Other waits: [APIClient.wait_for_ready] of utils.py and
    [TestDataHelper.wait_for_document_count] of os_queries.py *)
Module Waiting.
Import Py Poller.
Local Open Scope Z_scope.

(** [wait_for_ready(timeout, interval)]: the poller on [self.health_check],
    given here by what its calls do. *)
Definition wait_for_ready (fuel : nat) (health_check : condition_func)
    (timeout interval : Z) (clock : Z) : option (completion * world) :=
  wait_for_condition fuel health_check timeout interval "API readiness check" clock.

(** One call of [self.client.count_documents(index, query)], as the loop
    observes it: the count returned or the exception raised, and the time
    the call took. *)
Record counting := Counting { answer : res Z; took : nat }.

Definition count_func := nat -> Z -> counting.

(** The [while] loop of [wait_for_document_count], on the clock reading
    and the number of calls made so far. *)
Fixpoint count_loop (fuel : nat) (count_documents : count_func) (expected_count : Z)
    (start_time timeout interval : Z) (now : Z) (calls : nat)
    : option (completion * (Z * nat)) :=
  match fuel with
  | O => None
  | S fuel' =>
      if now - start_time <? timeout then
        let c := count_documents calls now in
        let now1 := now + Z.of_nat (took c) in
        match answer c with
        | Ok count =>
            if expected_count <=? count then Some (Return true, (now1, S calls))
            else
              count_loop fuel' count_documents expected_count start_time timeout interval
                (now1 + Z.max 0 interval) (S calls)
        | Err e =>
            if isinstance_Exception e then
              count_loop fuel' count_documents expected_count start_time timeout interval
                (now1 + Z.max 0 interval) (S calls)
            else Some (Propagate e, (now1, S calls))
        end
      else Some (Return false, (now, calls))
  end.

Definition wait_for_document_count (fuel : nat) (count_documents : count_func)
    (expected_count timeout interval : Z) (clock : Z)
    : option (completion * (Z * nat)) :=
  let start_time := clock in
  count_loop fuel count_documents expected_count start_time timeout interval clock 0.

(** The predicate [count >= expected_count] on the calls of
    [count_documents]. *)
Definition count_reached (count_documents : count_func) (expected_count : Z)
    : condition_func :=
  fun n t =>
    let c := count_documents n t in
    Invocation
      match answer c with
      | Ok count => Returns (expected_count <=? count)
      | Err e => Raises e
      end
      (took c).

(** The clock reading and the number of calls of a state of the poller. *)
Definition clock_and_calls (x : completion * world) : completion * (Z * nat) :=
  (fst x, (now (snd x), calls (snd x))).

(** A health check that fails three times while the service starts. *)
Definition starting_up : condition_func :=
  fun n _ => Invocation (Returns (3 <=? n)%nat) 0.

End Waiting.

(* ===================================================================== *)
(** * Part II: the theorems                                               *)
(* ===================================================================== *)

(** ** The HTTP wrapper *)
Module ClientFacts.
Import Py Client.
Local Open Scope Z_scope.

Section WithNetwork.
Context {Net : Type}.
Context (send : request -> Net -> (string + response) * Net).
Context (loads : string -> option json).
Context (urljoin : string -> string -> string).

Local Abbreviation call := (call send loads urljoin).
Local Abbreviation health_check := (health_check send).
Local Abbreviation request_of := (request_of urljoin).
Local Abbreviation after_request := (after_request send).
Local Abbreviation verb_result := (verb_result loads).
Local Abbreviation step := (step send loads urljoin).
Local Abbreviation run := (run send loads urljoin).

Lemma net_with_client (s : state (Net:=Net)) : net (with_client s) = net s.
Proof. unfold with_client, _get_client. destruct (client (self s)); reflexivity. Qed.

Lemma get_client_eq (s : state (Net:=Net)) :
  _get_client s = (Ok (pool_of s), with_client s).
Proof.
  unfold with_client, pool_of, _get_client. destruct (client (self s)); reflexivity.
Qed.

Lemma base_url_with_client (s : state (Net:=Net)) :
  base_url (self (with_client s)) = base_url (self s).
Proof. unfold with_client, _get_client. destruct (client (self s)); reflexivity. Qed.

(** A verb method is its request followed by the two checks. *)
Lemma call_eq c s :
  call c s =
  (verb_result (fst (send (request_of c s) (net s))),
   after_request (request_of c s) s).
Proof.
  unfold after_request.
  destruct c as [endpoint params|endpoint data|endpoint data|endpoint];
    cbn [Client.call Client.request_of];
    unfold get, post, put, delete, endpoint_url, bind, ret;
    rewrite get_client_eq; unfold client_request; rewrite net_with_client;
    (destruct (send _ (net s)) as [[failure|resp] n]; cbn [fst snd Client.verb_result];
     [reflexivity|]);
    unfold raise_for_status, response_json, ret, raise;
    (destruct (is_success resp); [|reflexivity]);
    destruct (loads (content resp)); reflexivity.
Qed.

Lemma health_check_state s :
  snd (health_check s) =
  after_request (Request GET (base_url (self s) +:+ "/health") JNull JNull) s.
Proof.
  unfold Client.health_check, try_except, after_request, bind, ret.
  rewrite get_client_eq. unfold client_request. rewrite net_with_client.
  destruct (send _ (net s)) as [[failure|resp] n]; reflexivity.
Qed.

(** C6: each verb method (get, post, put, delete), for every endpoint and
    payload and in every state, either returns the decoded JSON body of a
    response with a 2xx status, or raises.  When the connection fails or
    times out it raises the transport error; when the status is not 2xx it
    raises the HTTP status error that carries the status code and the body
    of the response; when the status is 2xx it returns the decoded body
    (and raises the decoder's error for a body that is not JSON).  So a
    normal return means a 2xx response. *)
Theorem verb_returns_json_or_raises c s :
  let answer := fst (send (request_of c s) (net s)) in
  let outcome := fst (call c s) in
  (forall failure,
      answer = inl failure -> outcome = Err (TransportError failure)) /\
  (forall resp,
      answer = inr resp -> is_success resp = false ->
      outcome = Err (HTTPStatusError (status_code resp) (content resp))) /\
  (forall resp,
      answer = inr resp -> is_success resp = true ->
      outcome = match loads (content resp) with
                | Some j => Ok j
                | None => Err (JSONDecodeError (content resp))
                end) /\
  (forall j,
      outcome = Ok j ->
      exists resp, answer = inr resp /\
                   200 <= status_code resp <= 299 /\
                   loads (content resp) = Some j).
Proof.
  cbv zeta. rewrite call_eq. cbn [fst].
  destruct (fst (send (request_of c s) (net s))) as [failure|resp];
    cbn [Client.verb_result].
  - split; [congruence|]. split; [discriminate|]. split; [discriminate|].
    intros j H. discriminate.
  - split; [discriminate|]. split; [|split].
    + intros resp' [= <-] Hs. rewrite Hs. reflexivity.
    + intros resp' [= <-] Hs. rewrite Hs. reflexivity.
    + intros j H. exists resp. split; [reflexivity|].
      destruct (is_success resp) eqn:Hs; [|discriminate].
      unfold is_success in Hs. apply andb_true_iff in Hs. destruct Hs as [H1 H2].
      apply Z.leb_le in H1, H2. split; [lia|].
      destruct (loads (content resp)); congruence.
Qed.

(** *** One pool at a time *)

Lemma live_app evs evs' acc : live (evs ++ evs') acc = live evs' (live evs acc).
Proof.
  revert acc. induction evs as [|[pool t|pool r|pool] evs IH]; intros acc;
    cbn [live app]; auto.
Qed.

Lemma events_after_request r s :
  events (after_request r s) =
  events s ++
  match client (self s) with
  | Some _ => []
  | None => [Constructed (constructed s) (timeout (self s))]
  end ++ [Sent (pool_of s) r].
Proof.
  unfold Client.after_request, client_request, with_client, _get_client.
  destruct (client (self s)) as [pool|] eqn:Hc; cbn;
    destruct (send r (net s)) as [[failure|resp] n]; cbn;
    rewrite <- ?app_assoc; reflexivity.
Qed.

Lemma client_after_request r s :
  client (self (after_request r s)) = Some (pool_of s).
Proof.
  unfold Client.after_request, client_request, with_client, pool_of, _get_client.
  destruct (client (self s)) as [pool|] eqn:Hc; cbn;
    destruct (send r (net s)) as [[failure|resp] n]; cbn; congruence.
Qed.

Lemma constructed_after_request r s :
  constructed (after_request r s) =
  match client (self s) with
  | Some _ => constructed s
  | None => S (constructed s)
  end.
Proof.
  unfold Client.after_request, client_request, with_client, _get_client.
  destruct (client (self s)) as [pool|] eqn:Hc; cbn;
    destruct (send r (net s)) as [[failure|resp] n]; reflexivity.
Qed.

(** Every step but [Close] is a request. *)
Lemma step_request o s :
  is_Close o = false -> exists r, step o s = after_request r s.
Proof.
  destruct o as [c| |]; intros H; [| |discriminate].
  - exists (request_of c s). cbn [Client.step]. rewrite call_eq. reflexivity.
  - eexists. cbn [Client.step]. apply health_check_state.
Qed.

Lemma step_close (s : state (Net:=Net)) :
  events (step Close s) =
    events s ++ match client (self s) with
                | Some pool => [Closed pool]
                | None => []
                end /\
  client (self (step Close s)) = None /\
  constructed (step Close s) = constructed s.
Proof.
  cbn [Client.step]. unfold close. destruct (client (self s)) as [pool|] eqn:Hc; cbn.
  - auto.
  - rewrite app_nil_r, Hc. auto.
Qed.

Lemma run_snoc ops o s : run (ops ++ [o]) s = step o (run ops s).
Proof. unfold Client.run. rewrite foldl_app. reflexivity. Qed.

(** The pools that are live are the one the instance holds, if any. *)
Lemma live_pool_step o s :
  live (events s) [] = from_option (fun pool => [pool]) [] (client (self s)) ->
  live (events (step o s)) [] =
    from_option (fun pool => [pool]) [] (client (self (step o s))).
Proof.
  intros Hinv. destruct (is_Close o) eqn:Ho.
  - destruct o; try discriminate.
    destruct (step_close s) as (-> & -> & _). rewrite live_app, Hinv.
    destruct (client (self s)) as [pool|]; cbn; [|reflexivity].
    rewrite Nat.eqb_refl. reflexivity.
  - destruct (step_request o s Ho) as [r ->].
    rewrite events_after_request, client_after_request, live_app, Hinv.
    unfold pool_of. destruct (client (self s)) as [pool|]; reflexivity.
Qed.

Lemma first_pool_only_step o s :
  is_Close o = false -> first_pool_only s -> first_pool_only (step o s).
Proof.
  intros Ho Hinv. destruct (step_request o s Ho) as [r ->].
  unfold first_pool_only in *.
  rewrite client_after_request, constructed_after_request, events_after_request.
  unfold pool_of, pools_constructed, pools_used in *.
  destruct (client (self s)) as [pool|].
  - destruct Hinv as (-> & Hc & Hp & Hu).
    rewrite !omap_app, Hp. cbn. split; [reflexivity|]. split; [assumption|].
    split; [reflexivity|]. apply Forall_app. split; [assumption|]. repeat constructor.
  - destruct Hinv as (-> & ->). cbn. repeat split; repeat constructor.
Qed.

Lemma first_pool_only_run ops base t n :
  forallb (fun o => negb (is_Close o)) ops = true ->
  first_pool_only (run ops (fresh_state base t n)).
Proof.
  induction ops as [|o ops IH] using rev_ind; intros Hops.
  - cbn. auto.
  - rewrite forallb_app in Hops. apply andb_true_iff in Hops. destruct Hops as [Hops Ho].
    cbn in Ho. rewrite andb_true_r in Ho. apply negb_true_iff in Ho.
    rewrite run_snoc. apply first_pool_only_step; auto.
Qed.

(** C8, as the code has it.  Whatever a test does with a new instance,
    the instance has at most one live pool: the pools constructed and not
    closed are the one [self.client] holds, if any.  As long as the
    instance is not closed every request goes through the one pool ever
    constructed, the one of the first use.  A close leaves the instance
    without a pool, and the verb call that follows a close constructs a
    new one. *)
Theorem one_live_pool ops base t n :
  let s := run ops (fresh_state base t n) in
  live (events s) [] = from_option (fun pool => [pool]) [] (client (self s)) /\
  (forallb (fun o => negb (is_Close o)) ops = true ->
   forall pool, pool ∈ pools_used (events s) ->
                pool = 0%nat /\ pools_constructed (events s) = [pool]) /\
  (forall c,
      let closed := step Close s in
      client (self closed) = None /\
      pools_constructed (events (step (Verb c) closed)) =
        pools_constructed (events closed) ++ [constructed closed]).
Proof.
  cbv zeta. split; [|split].
  - induction ops as [|o ops IH] using rev_ind; [reflexivity|].
    rewrite run_snoc. apply live_pool_step, IH.
  - intros Hops pool Hpool.
    pose proof (first_pool_only_run ops base t n Hops) as Hinv.
    unfold first_pool_only in Hinv.
    destruct (client (self (run ops (fresh_state base t n)))) as [p|].
    + destruct Hinv as (_ & _ & Hp & Hu).
      rewrite Forall_forall in Hu. specialize (Hu pool Hpool). subst pool. auto.
    + destruct Hinv as [Hev _]. rewrite Hev in Hpool. cbn in Hpool.
      apply elem_of_nil in Hpool. contradiction.
  - intros c. destruct (step_close (run ops (fresh_state base t n))) as (_ & Hc & _).
    split; [exact Hc|].
    destruct (step_request (Verb c) (step Close (run ops (fresh_state base t n))) eq_refl)
      as [r ->].
    rewrite events_after_request, Hc. unfold pools_constructed.
    rewrite !omap_app. reflexivity.
Qed.

(** *** The job-status predicates *)

(** What the two predicates return when they run in a state in which the
    job record fetched has the status [st]. *)
Lemma job_status_returned run_id s st :
  fetches send loads urljoin run_id s st ->
  fst (_check_run_completed send loads urljoin run_id s)
    = Ok (bool_decide (st ∈ ["completed"; "failed"; "error"; "partial"])) /\
  fst (check_completed send loads urljoin run_id s)
    = Ok (bool_decide (st ∈ ["completed"; "failed"; "error"])) /\
  (st ∈ non_terminal_statuses \/ st = "stopped" ->
   fst (_check_run_completed send loads urljoin run_id s) = Ok false /\
   fst (check_completed send loads urljoin run_id s) = Ok false).
Proof.
  intros (resp & n & m & Hsend & Hs & Hl & Hm).
  assert (Hget : get send loads urljoin ("/runs/" +:+ run_id) JNull s =
                 (Ok (JObj m),
                  after_request (request_of (CallGet ("/runs/" +:+ run_id) JNull) s) s)).
  { change (get send loads urljoin ("/runs/" +:+ run_id) JNull)
      with (call (CallGet ("/runs/" +:+ run_id) JNull)).
    rewrite call_eq, Hsend. cbn [fst Client.verb_result]. rewrite Hs, Hl. reflexivity. }
  assert (H1 : fst (_check_run_completed send loads urljoin run_id s)
               = Ok (bool_decide (st ∈ ["completed"; "failed"; "error"; "partial"]))).
  { unfold _check_run_completed, try_except_Exception, bind. rewrite Hget.
    cbn [getitem]. rewrite Hm. reflexivity. }
  assert (H2 : fst (check_completed send loads urljoin run_id s)
               = Ok (bool_decide (st ∈ ["completed"; "failed"; "error"]))).
  { unfold check_completed, bind. rewrite Hget. cbn [getitem]. rewrite Hm. reflexivity. }
  split; [exact H1|]. split; [exact H2|].
  intros Hst. rewrite H1, H2.
  assert (Hcases : st = "pending" \/ st = "running" \/ st = "stopped").
  { destruct Hst as [Hin| ->]; [|auto].
    unfold non_terminal_statuses in Hin.
    apply elem_of_cons in Hin. destruct Hin as [->|Hin]; [auto|].
    apply elem_of_cons in Hin. destruct Hin as [->|Hin]; [auto|].
    apply elem_of_nil in Hin. contradiction. }
  destruct Hcases as [->|[->| ->]]; split; reflexivity.
Qed.

(** [health_check] never raises: it returns true when the answer to
    GET /health is a response with status 200, and false for any other
    response and for a transport failure. *)
Theorem health_check_returns_bool s :
  let answer :=
    fst (send (Request GET (base_url (self s) +:+ "/health") JNull JNull) (net s)) in
  fst (health_check s) =
  Ok match answer with
     | inr resp => status_code resp =? 200
     | inl _ => false
     end.
Proof.
  cbv zeta. unfold Client.health_check, try_except, bind, ret.
  rewrite get_client_eq. unfold client_request. rewrite net_with_client.
  destruct (send _ (net s)) as [[failure|resp] n]; reflexivity.
Qed.

(** When the job record cannot be fetched because the transport fails,
    the predicate of test_agent_recon.py answers false, and the predicate
    of test_agent_creds.py raises the transport error (which the poller
    then swallows). *)
Theorem job_status_predicates_on_failure run_id s failure :
  fst (send (request_of (CallGet ("/runs/" +:+ run_id) JNull) s) (net s))
    = inl failure ->
  fst (_check_run_completed send loads urljoin run_id s) = Ok false /\
  fst (check_completed send loads urljoin run_id s) = Err (TransportError failure).
Proof.
  intros Hsend.
  assert (Hget : fst (get send loads urljoin ("/runs/" +:+ run_id) JNull s)
                 = Err (TransportError failure)).
  { change (get send loads urljoin ("/runs/" +:+ run_id) JNull)
      with (call (CallGet ("/runs/" +:+ run_id) JNull)).
    rewrite call_eq. cbn [fst]. rewrite Hsend. reflexivity. }
  unfold _check_run_completed, check_completed, try_except_Exception, bind.
  destruct (get send loads urljoin ("/runs/" +:+ run_id) JNull s) as [[j|e] s'];
    cbn [fst] in Hget; [discriminate|].
  injection Hget as ->. split; reflexivity.
Qed.

End WithNetwork.

Lemma job_status_predicates_on_failure_witness :
  fst (_check_run_completed unreachable_server job_loads concat_url "1"
         (fresh_state "http://api/" 30 tt)) = Ok false /\
  fst (check_completed unreachable_server job_loads concat_url "1"
         (fresh_state "http://api/" 30 tt))
    = Err (TransportError "connection refused").
Proof.
  apply (job_status_predicates_on_failure unreachable_server job_loads concat_url
           "1" (fresh_state "http://api/" 30 tt) "connection refused").
  reflexivity.
Defined.

Lemma one_live_pool_witness :
  live (events (run job_server job_loads concat_url
                  [Verb (CallGet "/runs/1" JNull); HealthCheck; Close]
                  (fresh_state "http://api/" 30 "running"))) []
    = from_option (fun pool => [pool]) []
        (client (self (run job_server job_loads concat_url
                         [Verb (CallGet "/runs/1" JNull); HealthCheck; Close]
                         (fresh_state "http://api/" 30 "running")))).
Proof.
  exact (proj1 (one_live_pool job_server job_loads concat_url
                  [Verb (CallGet "/runs/1" JNull); HealthCheck; Close]
                  "http://api/" 30 "running")).
Defined.

(** C8 as stated fails: a pool is constructed after the instance has been
    closed.  A GET, a close and a second GET on one instance construct
    two pools, the second one after the first has been closed. *)
Lemma pool_constructed_after_close :
  let s := run job_server job_loads concat_url
             [Verb (CallGet "/runs/1" JNull); Close; Verb (CallGet "/runs/1" JNull)]
             (fresh_state "http://api/" 30 "running") in
  events s =
    [Constructed 0 30; Sent 0 (Request GET "http://api/runs/1" JNull JNull);
     Closed 0;
     Constructed 1 30; Sent 1 (Request GET "http://api/runs/1" JNull JNull)] /\
  pools_constructed (events s) = [0%nat; 1%nat].
Proof. split; reflexivity. Qed.

End ClientFacts.

(** ** The query builders *)
Module QueriesFacts.
Import Py Masking OpenSearchQueries.

Ltac by_key key :=
  repeat match goal with
         | |- context [String.eqb key ?k] =>
             destruct (String.eqb_spec key k) as [->|?]
         end.

Section WithWorld.
Context {World : Type}.

Local Abbreviation state := (state (World:=World)).

Local Notation "'do' x <- m ;; k" := (bind m (fun x => k))
  (at level 10, x name, m at level 99, k at level 200).

Lemma fresh_free (h : gmap positive object) : h !! fresh (dom h) = None.
Proof. apply not_elem_of_dom, is_fresh. Qed.

(** A computation that ends in the state [s] enlarged by objects at
    addresses free in [s] only builds. *)
Lemma builds_intro (b : M positive) (s : state) r (new : gmap positive object) :
  b s = (r, {| heap := new ∪ heap s; world := world s |}) ->
  (forall a, a ∈ dom new -> heap s !! a = None) ->
  is_Some (new !! r) ->
  builds b s r new.
Proof.
  intros Hb Hfree Hr. eexists. split; [exact Hb|]. cbn [heap world].
  split; [reflexivity|]. split; [reflexivity|]. split; [exact Hfree|].
  split; [|exact Hr].
  intros a o Ha. rewrite lookup_union_r; [exact Ha|].
  apply not_elem_of_dom. intros Hin. rewrite (Hfree a Hin) in Ha. discriminate.
Qed.

(** Two dictionaries made one after the other. *)
Lemma two_dicts (h : gmap positive object) (w : World) (first : gmap string value)
    (second : positive -> gmap string value) :
  exists r inner,
    r <> inner /\
    (do inner <- new_dict first ;; new_dict (second inner)) {| heap := h; world := w |}
      = (r, {| heap := {[ r := Dict (second inner); inner := Dict first ]} ∪ h;
               world := w |}) /\
    (forall a, a ∈ dom ({[ r := Dict (second inner); inner := Dict first ]}
                          : gmap positive object) -> h !! a = None) /\
    is_Some (({[ r := Dict (second inner); inner := Dict first ]}
                : gmap positive object) !! r).
Proof.
  set (inner := fresh (dom h)).
  set (r := fresh (dom (<[inner := Dict first]> h))).
  assert (Hinner : h !! inner = None) by apply fresh_free.
  assert (Hr : <[inner := Dict first]> h !! r = None) by apply fresh_free.
  apply lookup_insert_None in Hr. destruct Hr as [Hr Hne].
  exists r, inner. split; [congruence|]. split; [|split].
  - unfold bind, new_dict. cbn [heap world]. fold inner. fold r.
    rewrite <- insert_union_l, <- insert_union_singleton_l. reflexivity.
  - intros a Ha. rewrite dom_insert, dom_singleton in Ha.
    apply elem_of_union in Ha. destruct Ha as [Ha|Ha];
      apply elem_of_singleton in Ha; subst a; assumption.
  - rewrite lookup_insert_eq. eauto.
Qed.

Lemma builds_two_dicts (b : M positive) (s : state) (first : gmap string value)
    (second : positive -> gmap string value) :
  b = (do inner <- new_dict first ;; new_dict (second inner)) ->
  exists r inner,
    r <> inner /\
    builds b s r {[ r := Dict (second inner); inner := Dict first ]}.
Proof.
  intros ->. destruct s as [h w].
  destruct (two_dicts h w first second) as (r & inner & Hne & Hb & Hfree & Hr).
  exists r, inner. split; [exact Hne|]. apply builds_intro; assumption.
Qed.

(** An assignment to a key of a dictionary that has just been made. *)
Lemma dict_setitem_made (h : gmap positive object) (w : World) d entries key v :
  dict_setitem d key v {| heap := <[d := Dict entries]> h; world := w |}
  = (tt, {| heap := <[d := Dict (<[key := v]> entries)]> h; world := w |}).
Proof. unfold dict_setitem. cbn [heap world]. rewrite alter_insert_eq. reflexivity. Qed.

(** The dictionary of parameters, the dictionary that holds it under
    [field] and the one that holds that one under [name], made in this
    order. *)
Lemma three_dicts (h : gmap positive object) (w : World) name field
    (params : gmap string value) :
  let p := fresh (dom h) in
  exists r inner,
    NoDup [r; inner; p] /\
    (do inner <- new_dict {[ field := VRef p ]} ;; new_dict {[ name := VRef inner ]})
      {| heap := <[p := Dict params]> h; world := w |}
    = (r, {| heap := {[ r := Dict {[ name := VRef inner ]};
                        inner := Dict {[ field := VRef p ]};
                        p := Dict params ]} ∪ h;
             world := w |}) /\
    (forall a, a ∈ dom ({[ r := Dict {[ name := VRef inner ]};
                           inner := Dict {[ field := VRef p ]};
                           p := Dict params ]} : gmap positive object) ->
               h !! a = None) /\
    is_Some (({[ r := Dict {[ name := VRef inner ]};
                 inner := Dict {[ field := VRef p ]};
                 p := Dict params ]} : gmap positive object) !! r).
Proof.
  intros p.
  assert (Hp : h !! p = None) by apply fresh_free.
  destruct (two_dicts (<[p := Dict params]> h) w {[ field := VRef p ]}
              (fun inner => {[ name := VRef inner ]}))
    as (r & inner & Hne & Hb & Hfree & Hr).
  assert (Hri : forall a, a = r \/ a = inner -> a <> p /\ h !! a = None).
  { intros a Ha.
    assert (Hnone : <[p := Dict params]> h !! a = None).
    { apply Hfree. rewrite dom_insert, dom_singleton.
      destruct Ha as [->| ->]; [apply elem_of_union_l|apply elem_of_union_r];
        apply elem_of_singleton; reflexivity. }
    apply lookup_insert_None in Hnone. destruct Hnone; split; congruence. }
  destruct (Hri r (or_introl eq_refl)) as [Hrp Hrh].
  destruct (Hri inner (or_intror eq_refl)) as [Hip Hih].
  exists r, inner. split; [|split; [|split]].
  - repeat constructor; rewrite ?elem_of_cons, ?elem_of_nil; intuition congruence.
  - rewrite Hb. f_equal. f_equal.
    rewrite (insert_union_singleton_l h p), (assoc_L (∪)).
    f_equal. rewrite <- insert_union_l, <- insert_union_singleton_l. reflexivity.
  - intros a Ha. rewrite !dom_insert, dom_singleton in Ha.
    rewrite !elem_of_union, !elem_of_singleton in Ha.
    destruct Ha as [->|[->| ->]]; assumption.
  - rewrite lookup_insert_eq. eauto.
Qed.

(** The dictionary that holds, under [name], a dictionary of parameters
    that has been made before it. *)
Lemma dict_over (h : gmap positive object) (w : World) name
    (params : gmap string value) :
  let p := fresh (dom h) in
  exists r,
    r <> p /\
    new_dict {[ name := VRef p ]} {| heap := <[p := Dict params]> h; world := w |}
    = (r, {| heap := {[ r := Dict {[ name := VRef p ]}; p := Dict params ]} ∪ h;
             world := w |}) /\
    (forall a, a ∈ dom ({[ r := Dict {[ name := VRef p ]}; p := Dict params ]}
                          : gmap positive object) -> h !! a = None) /\
    is_Some (({[ r := Dict {[ name := VRef p ]}; p := Dict params ]}
                : gmap positive object) !! r).
Proof.
  intros p.
  assert (Hp : h !! p = None) by apply fresh_free.
  set (r := fresh (dom (<[p := Dict params]> h))).
  assert (Hr : <[p := Dict params]> h !! r = None) by apply fresh_free.
  apply lookup_insert_None in Hr. destruct Hr as [Hr Hne].
  exists r. split; [congruence|]. split; [|split].
  - unfold new_dict. cbn [heap world]. fold r.
    rewrite <- insert_union_l, <- insert_union_singleton_l. reflexivity.
  - intros a Ha. rewrite dom_insert, dom_singleton in Ha.
    apply elem_of_union in Ha. destruct Ha as [Ha|Ha];
      apply elem_of_singleton in Ha; subst a; assumption.
  - rewrite lookup_insert_eq. eauto.
Qed.

(** The parameters of a range query, whatever follows their making. *)
Lemma range_params_made (h : gmap positive object) (w : World) p gte lte gt lt :
  exists params : gmap string value,
    (forall A (k : M A),
        (do _ <- (if is_not_None gte then dict_setitem p "gte" gte else ret tt) ;;
         do _ <- (if is_not_None lte then dict_setitem p "lte" lte else ret tt) ;;
         do _ <- (if is_not_None gt then dict_setitem p "gt" gt else ret tt) ;;
         do _ <- (if is_not_None lt then dict_setitem p "lt" lt else ret tt) ;;
         k)
          {| heap := <[p := Dict ∅]> h; world := w |}
        = k {| heap := <[p := Dict params]> h; world := w |}) /\
    forall key, params !! key = range_bounds gte lte gt lt key.
Proof.
  unfold bind, range_bounds, entry.
  destruct (is_not_None gte), (is_not_None lte), (is_not_None gt), (is_not_None lt);
    rewrite ?dict_setitem_made; unfold ret;
    (eexists; split; [intros A k; rewrite ?dict_setitem_made; reflexivity|]);
    intros key; by_key key; simplify_map_eq; reflexivity.
Qed.

(** The truth value of a value of the heap is not changed by a new
    object. *)
Lemma truth_made (h : gmap positive object) p o v :
  h !! p = None -> valid h v -> truth (<[p := o]> h) v = truth h v.
Proof.
  intros Hp Hv. destruct v as [| | | |a]; try reflexivity.
  cbn [truth valid] in *. rewrite lookup_insert_ne; [reflexivity|].
  intros ->. rewrite Hp in Hv. destruct Hv as [? ?]. discriminate.
Qed.

(** The clauses of a boolean query, whatever follows their making. *)
Lemma bool_params_made (h : gmap positive object) (w : World) p
    must should must_not filter :
  h !! p = None ->
  valid h must -> valid h should -> valid h must_not -> valid h filter ->
  exists params : gmap string value,
    (forall A (k : M A),
        (do given <- truthy must ;;
         do _ <- (if given then dict_setitem p "must" must else ret tt) ;;
         do given <- truthy should ;;
         do _ <- (if given then dict_setitem p "should" should else ret tt) ;;
         do given <- truthy must_not ;;
         do _ <- (if given then dict_setitem p "must_not" must_not else ret tt) ;;
         do given <- truthy filter ;;
         do _ <- (if given then dict_setitem p "filter" filter else ret tt) ;;
         k)
          {| heap := <[p := Dict ∅]> h; world := w |}
        = k {| heap := <[p := Dict params]> h; world := w |}) /\
    forall key, params !! key = bool_clauses h must should must_not filter key.
Proof.
  intros Hp Hmust Hshould Hmust_not Hfilter.
  unfold bind, truthy, bool_clauses, entry. cbn [heap world].
  rewrite (truth_made h p _ must) by assumption.
  destruct (truth h must); rewrite ?dict_setitem_made; unfold ret; cbn [heap world];
    rewrite (truth_made h p _ should) by assumption;
    destruct (truth h should); rewrite ?dict_setitem_made; cbn [heap world];
    rewrite (truth_made h p _ must_not) by assumption;
    destruct (truth h must_not); rewrite ?dict_setitem_made; cbn [heap world];
    rewrite (truth_made h p _ filter) by assumption;
    destruct (truth h filter);
    (eexists; split; [intros A k; rewrite ?dict_setitem_made; reflexivity|]);
    intros key; by_key key; simplify_map_eq; reflexivity.
Qed.

Lemma builds_range_query (s : state) field gte lte gt lt :
  exists r inner p (params : gmap string value),
    NoDup [r; inner; p] /\
    builds (range_query field gte lte gt lt) s r
      {[ r := Dict {[ "range" := VRef inner ]};
         inner := Dict {[ field := VRef p ]};
         p := Dict params ]} /\
    forall key, params !! key = range_bounds gte lte gt lt key.
Proof.
  destruct s as [h w].
  destruct (range_params_made h w (fresh (dom h)) gte lte gt lt) as (params & Hmade & Hkeys).
  destruct (three_dicts h w "range" field params) as (r & inner & Hnd & Hb & Hfree & Hr).
  exists r, inner, (fresh (dom h)), params. split; [exact Hnd|]. split; [|exact Hkeys].
  apply builds_intro; [|exact Hfree|exact Hr].
  unfold range_query. unfold bind at 1. unfold new_dict at 1. cbn [heap world].
  rewrite Hmade. exact Hb.
Qed.

(** C7: the builders are pure functions.  In every state of the heap and
    of the world, and for all arguments, a builder returns; it does no
    input or output and changes no object (the world and every object of
    the heap are as they were, the arguments included); what it returns
    is the address of a new dictionary, and the dictionaries it has made
    are the filter expression of its name, with entries that the
    arguments alone decide.  The expression of a range query holds,
    under the field, exactly the bounds that were given (those that are
    not [None]), each under its own key; the expression of a boolean
    query holds exactly the clauses that are true in [if clause:], those
    that are neither [None] nor empty; a time range query is the range
    query from [start_time] to [end_time], both included. *)
Theorem query_builders (s : state) (field start_time end_time : string)
    (value values pattern gte lte gt lt must should must_not filter : Masking.value) :
  (exists r inner,
      r <> inner /\
      builds match_all s r
        {[ r := Dict {[ "match_all" := VRef inner ]}; inner := Dict ∅ ]}) /\
  (exists r inner,
      r <> inner /\
      builds (term_query field value) s r
        {[ r := Dict {[ "term" := VRef inner ]}; inner := Dict {[ field := value ]} ]}) /\
  (exists r inner,
      r <> inner /\
      builds (terms_query field values) s r
        {[ r := Dict {[ "terms" := VRef inner ]}; inner := Dict {[ field := values ]} ]}) /\
  (exists r inner,
      r <> inner /\
      builds (exists_query field) s r
        {[ r := Dict {[ "exists" := VRef inner ]};
           inner := Dict {[ "field" := VStr field ]} ]}) /\
  (exists r inner,
      r <> inner /\
      builds (wildcard_query field pattern) s r
        {[ r := Dict {[ "wildcard" := VRef inner ]};
           inner := Dict {[ field := pattern ]} ]}) /\
  (exists r inner p (range_params : gmap string Masking.value),
      NoDup [r; inner; p] /\
      builds (range_query field gte lte gt lt) s r
        {[ r := Dict {[ "range" := VRef inner ]};
           inner := Dict {[ field := VRef p ]};
           p := Dict range_params ]} /\
      forall key, range_params !! key = range_bounds gte lte gt lt key) /\
  (valid (heap s) must -> valid (heap s) should ->
   valid (heap s) must_not -> valid (heap s) filter ->
   exists r p (bool_params : gmap string Masking.value),
      r <> p /\
      builds (bool_query must should must_not filter) s r
        {[ r := Dict {[ "bool" := VRef p ]}; p := Dict bool_params ]} /\
      forall key,
        bool_params !! key = bool_clauses (heap s) must should must_not filter key) /\
  (exists r inner p,
      NoDup [r; inner; p] /\
      builds (time_range_query field (VStr start_time) (VStr end_time)) s r
        {[ r := Dict {[ "range" := VRef inner ]};
           inner := Dict {[ field := VRef p ]};
           p := Dict {[ "gte" := VStr start_time; "lte" := VStr end_time ]} ]}).
Proof.
  split; [apply (builds_two_dicts _ s ∅ (fun inner => {[ "match_all" := VRef inner ]}));
          reflexivity|].
  split; [apply (builds_two_dicts _ s {[ field := value ]}
                   (fun inner => {[ "term" := VRef inner ]})); reflexivity|].
  split; [apply (builds_two_dicts _ s {[ field := values ]}
                   (fun inner => {[ "terms" := VRef inner ]})); reflexivity|].
  split; [apply (builds_two_dicts _ s {[ "field" := VStr field ]}
                   (fun inner => {[ "exists" := VRef inner ]})); reflexivity|].
  split; [apply (builds_two_dicts _ s {[ field := pattern ]}
                   (fun inner => {[ "wildcard" := VRef inner ]})); reflexivity|].
  split; [apply builds_range_query|].
  split.
  - intros Hmust Hshould Hmust_not Hfilter. destruct s as [h w]. cbn [heap] in *.
    destruct (bool_params_made h w (fresh (dom h)) must should must_not filter
                (fresh_free h) Hmust Hshould Hmust_not Hfilter)
      as (params & Hmade & Hkeys).
    destruct (dict_over h w "bool" params) as (r & Hne & Hb & Hfree & Hr).
    exists r, (fresh (dom h)), params. split; [exact Hne|]. split; [|exact Hkeys].
    apply builds_intro; [|exact Hfree|exact Hr].
    unfold bool_query. unfold bind at 1. unfold new_dict at 1. cbn [heap world].
    rewrite Hmade. exact Hb.
  - destruct (builds_range_query s field (VStr start_time) (VStr end_time) VNone VNone)
      as (r & inner & p & params & Hnd & Hb & Hkeys).
    exists r, inner, p. split; [exact Hnd|].
    assert (Hparams : params = {[ "gte" := VStr start_time; "lte" := VStr end_time ]}).
    { apply map_eq. intros key. rewrite Hkeys. unfold range_bounds, entry.
      by_key key; simplify_map_eq; reflexivity. }
    rewrite <- Hparams. exact Hb.
Qed.

End WithWorld.

(** The boolean query of two term queries that test_agent_recon.py
    builds, with an empty list for [should]: the clause [must] is kept,
    the empty list and the clauses left out are not. *)
Lemma query_builders_witness :
  exists r p (bool_params : gmap string value),
    r <> p /\
    builds (bool_query (VRef 1) (VRef 6) VNone VNone)
      {| heap := clauses_heap; world := tt |} r
      {[ r := Dict {[ "bool" := VRef p ]}; p := Dict bool_params ]} /\
    forall key,
      bool_params !! key = bool_clauses clauses_heap (VRef 1) (VRef 6) VNone VNone key.
Proof.
  apply (proj1 (proj2 (proj2 (proj2 (proj2 (proj2 (proj2
           (query_builders {| heap := clauses_heap; world := tt |}
              "run_id" "" "" VNone VNone VNone VNone VNone VNone VNone
              (VRef 1) (VRef 6) VNone VNone)))))))).
  - exists (List [VRef 2; VRef 4]). reflexivity.
  - exists (List []). reflexivity.
  - exact I.
  - exact I.
Defined.

Example term_query_made :
  term_query "agent" (VStr "recon") {| heap := clauses_heap; world := tt |}
  = (8%positive,
     {| heap := <[8%positive := Dict {[ "term" := VRef 7 ]}]>
                  (<[7%positive := Dict {[ "agent" := VStr "recon" ]}]> clauses_heap);
        world := tt |}).
Proof. vm_compute. reflexivity. Qed.

Example bool_clauses_kept :
  bool_clauses clauses_heap (VRef 1) (VRef 6) VNone VNone "must" = Some (VRef 1) /\
  bool_clauses clauses_heap (VRef 1) (VRef 6) VNone VNone "should" = None /\
  bool_clauses clauses_heap (VRef 1) (VRef 6) VNone VNone "filter" = None.
Proof. repeat split; reflexivity. Qed.

End QueriesFacts.

(** ** Masking *)
Module MaskingFacts.
Import Py Masking.

(** One turn of the loop over the sensitive fields, on a heap in which
    the copy [masked] holds the entries [m]. *)
Lemma mask_turn (h : gmap positive (gmap string value)) masked field
    (m : gmap string value) :
  (if dict_contains masked field (<[masked := m]> h)
   then dict_setitem masked field MASKED (<[masked := m]> h)
   else <[masked := m]> h)
  = <[masked := match m !! field with
                | Some _ => <[field := MASKED]> m
                | None => m
                end]> h.
Proof.
  unfold dict_contains, dict_setitem. rewrite lookup_insert_eq.
  destruct (m !! field) as [v|] eqn:Hfield.
  - rewrite bool_decide_eq_true_2 by eauto. apply alter_insert_eq.
  - rewrite bool_decide_eq_false_2 by (intros [? ?]; discriminate). reflexivity.
Qed.

Lemma mask_loop (h : gmap positive (gmap string value)) masked fields :
  forall m : gmap string value,
  exists m' : gmap string value,
    foldl (fun h field =>
             if dict_contains masked field h
             then dict_setitem masked field MASKED h
             else h)
          (<[masked := m]> h) fields
      = <[masked := m']> h /\
    forall key,
      m' !! key = if bool_decide (key ∈ fields)
                  then (fun _ => MASKED) <$> m !! key
                  else m !! key.
Proof.
  induction fields as [|field fields IH]; intros m.
  - exists m. split; [reflexivity|]. intros key.
    rewrite bool_decide_eq_false_2; [reflexivity|apply not_elem_of_nil].
  - cbn [foldl]. rewrite mask_turn.
    destruct (IH (match m !! field with
                  | Some _ => <[field := MASKED]> m
                  | None => m
                  end)) as (m' & -> & Hm').
    exists m'. split; [reflexivity|]. intros key. rewrite Hm'.
    destruct (decide (key = field)) as [->|Hne].
    + rewrite (bool_decide_eq_true_2 (field ∈ field :: fields)) by (apply elem_of_cons; auto).
      destruct (m !! field) as [v|] eqn:Hfield.
      * rewrite lookup_insert_eq. destruct (bool_decide (field ∈ fields)); reflexivity.
      * rewrite Hfield. destruct (bool_decide (field ∈ fields)); reflexivity.
    + assert (Hkey : match m !! field with
                     | Some _ => <[field := MASKED]> m
                     | None => m
                     end !! key = m !! key).
      { destruct (m !! field); [apply lookup_insert_ne; congruence|reflexivity]. }
      rewrite Hkey.
      destruct (decide (key ∈ fields)) as [Hin|Hnin].
      * rewrite !bool_decide_eq_true_2; auto. apply elem_of_cons. auto.
      * rewrite !bool_decide_eq_false_2; auto.
        rewrite elem_of_cons. intros [?|?]; contradiction.
Qed.

(** C10: on a heap where [data] is a dictionary with the entries [d], and
    for every list of sensitive field names, [mask_sensitive_data] returns
    the address of a new dictionary and leaves every object that was on
    the heap as it was, the input dictionary included.  The dictionary
    returned has the keys of the input; a key that is in the list holds the
    constant ***MASKED***, every other key holds the value it has in the
    input. *)
Theorem mask_sensitive_data_copy
    (h : gmap positive (gmap string value)) data (d : gmap string value) fields :
  h !! data = Some d ->
  exists masked (h' : gmap positive (gmap string value)) (m : gmap string value),
    mask_sensitive_data data (Some fields) h = Some (masked, h') /\
    h !! masked = None /\
    masked <> data /\
    h' !! data = Some d /\
    (forall a, a <> masked -> h' !! a = h !! a) /\
    h' !! masked = Some m /\
    dom m = dom d /\
    forall key,
      m !! key = if bool_decide (key ∈ fields)
                 then (fun _ => MASKED) <$> d !! key
                 else d !! key.
Proof.
  intros Hdata. unfold mask_sensitive_data, dict_copy. rewrite Hdata.
  set (masked := fresh (dom h)).
  assert (Hfresh : h !! masked = None).
  { apply not_elem_of_dom. apply is_fresh. }
  assert (Hne : masked <> data) by congruence.
  destruct (mask_loop h masked fields d) as (m & -> & Hm).
  exists masked, (<[masked := m]> h), m.
  split; [reflexivity|]. split; [exact Hfresh|]. split; [exact Hne|].
  split; [rewrite lookup_insert_ne by exact Hne; exact Hdata|].
  split; [intros a Ha; apply lookup_insert_ne; congruence|].
  split; [apply lookup_insert_eq|]. split; [|exact Hm].
  apply set_eq. intros key. rewrite !elem_of_dom, Hm.
  destruct (bool_decide (key ∈ fields)); [|reflexivity].
  rewrite fmap_is_Some. reflexivity.
Qed.

Lemma mask_sensitive_data_copy_witness :
  exists masked (h' : gmap positive (gmap string value)) (m : gmap string value),
    mask_sensitive_data 1 (Some ["password"; "api_key"]) login_heap
      = Some (masked, h') /\
    login_heap !! masked = None /\
    masked <> 1%positive /\
    h' !! 1%positive
      = Some {[ "user" := VStr "alice"; "password" := VStr "hunter2";
                "auth" := VRef 2 ]} /\
    (forall a, a <> masked -> h' !! a = login_heap !! a) /\
    h' !! masked = Some m /\
    dom m = dom ({[ "user" := VStr "alice"; "password" := VStr "hunter2";
                    "auth" := VRef 2 ]} : gmap string value) /\
    forall key,
      m !! key = if bool_decide (key ∈ ["password"; "api_key"])
                 then (fun _ => MASKED) <$>
                        ({[ "user" := VStr "alice"; "password" := VStr "hunter2";
                            "auth" := VRef 2 ]} : gmap string value) !! key
                 else ({[ "user" := VStr "alice"; "password" := VStr "hunter2";
                          "auth" := VRef 2 ]} : gmap string value) !! key.
Proof.
  apply (mask_sensitive_data_copy login_heap 1
           {[ "user" := VStr "alice"; "password" := VStr "hunter2"; "auth" := VRef 2 ]}
           ["password"; "api_key"]).
  reflexivity.
Defined.

End MaskingFacts.

(** ** The condition poller *)
Module PollerFacts.
Import Py Poller.
Local Open Scope Z_scope.

Section Run.
Context (f : condition_func) (start_time timeout interval : Z) (description : string).

Local Abbreviation tick := (tick f start_time interval).
Local Abbreviation poll := (poll f start_time interval).
Local Abbreviation errors := (errors f start_time interval description).
Local Abbreviation at_test := (at_test f start_time interval description).
Local Abbreviation after_call := (after_call f start_time interval description).
Local Abbreviation iteration := (iteration f start_time timeout interval description).
Local Abbreviation goes_on := (goes_on f start_time timeout interval description).
Local Abbreviation polled := (polled f start_time timeout interval description).
Local Abbreviation loop fuel := (poll_loop fuel f start_time timeout interval description).

(** One unfolding of the loop, on the states of the schedule. *)
Lemma poll_loop_step fuel k :
  loop (S fuel) (at_test k) =
  match iteration k with
  | Some x => Some x
  | None => loop fuel (at_test (S k))
  end.
Proof.
  cbn [poll_loop]. unfold iteration, invoke. cbn [now calls stdout at_test].
  destruct (tick k - start_time <? timeout); [|reflexivity].
  fold (poll k).
  destruct (result (poll k)) as [[|]|e] eqn:Hr.
  - reflexivity.
  - f_equal. unfold sleep, at_test. cbn. unfold Poller.poll in Hr |- *.
    rewrite Hr, app_nil_r. reflexivity.
  - destruct (isinstance_Exception e) eqn:He; [|reflexivity].
    f_equal. unfold sleep, print, at_test. cbn. unfold Poller.poll in Hr |- *.
    rewrite Hr, He. reflexivity.
Qed.

(** The loop ends at the first iteration that does not go on. *)
Lemma poll_loop_first fuel k n x :
  (forall j, (j < n)%nat -> iteration (k + j) = None) ->
  iteration (k + n) = Some x ->
  (n < fuel)%nat ->
  loop fuel (at_test k) = Some x.
Proof.
  revert k n. induction fuel as [|fuel IH]; intros k n Hgo Hend Hlt; [lia|].
  rewrite poll_loop_step. destruct n as [|n].
  - rewrite Nat.add_0_r in Hend. rewrite Hend. reflexivity.
  - rewrite <- (Nat.add_0_r k) at 1. rewrite (Hgo 0%nat) by lia.
    apply (IH (S k) n); [| |lia].
    + intros j Hj. replace (S k + j)%nat with (k + S j)%nat by lia. apply Hgo. lia.
    + replace (S k + n)%nat with (k + S n)%nat by lia. exact Hend.
Qed.

Lemma poll_loop_inv fuel k x :
  loop fuel (at_test k) = Some x ->
  exists n, (n < fuel)%nat /\
    (forall j, (j < n)%nat -> iteration (k + j) = None) /\
    iteration (k + n) = Some x.
Proof.
  revert k. induction fuel as [|fuel IH]; intros k H; [discriminate|].
  rewrite poll_loop_step in H.
  destruct (iteration k) as [y|] eqn:Hk.
  - exists 0%nat. rewrite Nat.add_0_r. split; [lia|]. split; [intros; lia|congruence].
  - destruct (IH _ H) as (n & Hn & Hgo & Hend).
    exists (S n). split; [lia|]. split.
    + intros [|j] Hj; [rewrite Nat.add_0_r; exact Hk|].
      replace (k + S j)%nat with (S k + j)%nat by lia. apply Hgo. lia.
    + replace (k + S n)%nat with (S k + n)%nat by lia. exact Hend.
Qed.

Lemma tick_S_ge k : tick k <= tick (S k).
Proof. cbn [Poller.tick]. lia. Qed.

Lemma tick_mono j k : (j <= k)%nat -> tick j <= tick k.
Proof.
  induction 1 as [|k _ IH]; [lia|]. pose proof (tick_S_ge k). lia.
Qed.

Lemma tick_grows : time_passes f interval -> forall k, start_time + Z.of_nat k <= tick k.
Proof.
  intros Hp. induction k as [|k IH]; [cbn; lia|].
  cbn [Poller.tick]. specialize (Hp k (tick k)). lia.
Qed.

Lemma iteration_late k : timeout <= tick k - start_time -> iteration k <> None.
Proof.
  intros H. unfold Poller.iteration.
  destruct (Z.ltb_spec (tick k - start_time) timeout); [lia|discriminate].
Qed.

(** Below an iteration that ends the loop there is a first one. *)
Lemma first_end n :
  iteration n <> None ->
  exists n0 x, (n0 <= n)%nat /\
    (forall j, (j < n0)%nat -> iteration j = None) /\ iteration n0 = Some x.
Proof.
  induction n as [n IH] using lt_wf_ind. intros Hn.
  destruct (forallb goes_on (seq 0 n)) eqn:Hall.
  - destruct (iteration n) as [x|] eqn:Hx; [|congruence].
    exists n, x. split; [lia|]. split; [|exact Hx].
    intros j Hj. rewrite forallb_forall in Hall.
    specialize (Hall j). unfold Poller.goes_on in Hall.
    destruct (iteration j); [|reflexivity].
    discriminate Hall. apply in_seq. lia.
  - assert (exists j, (j < n)%nat /\ iteration j <> None) as (j & Hj & Hne).
    { clear IH Hn. induction n as [|n IHn]; [discriminate|].
      rewrite seq_S, forallb_app in Hall. cbn in Hall.
      destruct (forallb goes_on (seq 0 n)) eqn:Hn.
      - exists n. split; [lia|]. unfold Poller.goes_on in Hall.
        destruct (iteration n); [discriminate|discriminate Hall].
      - destruct (IHn eq_refl) as (j & Hj & Hne). exists j. split; [lia|exact Hne]. }
    destruct (IH j Hj Hne) as (n0 & x & Hle & Hgo & Hend).
    exists n0, x. split; [lia|]. split; assumption.
Qed.

(** When time passes the loop ends: some iteration does not go on. *)
Lemma run_ends :
  time_passes f interval ->
  exists n x, (forall j, (j < n)%nat -> iteration j = None) /\ iteration n = Some x.
Proof.
  intros Hp.
  destruct (first_end (Z.to_nat (Z.max 0 timeout))) as (n & x & _ & Hgo & Hend).
  - apply iteration_late. pose proof (tick_grows Hp (Z.to_nat (Z.max 0 timeout))). lia.
  - exists n, x. split; assumption.
Qed.

Lemma polled_spec k :
  polled k = true <->
  (forall j, (j < k)%nat -> iteration j = None) /\ tick k - start_time < timeout.
Proof.
  unfold Poller.polled. rewrite andb_true_iff, forallb_forall, Z.ltb_lt.
  split; intros [Hgo Ht]; (split; [|exact Ht]).
  - intros j Hj. specialize (Hgo j). unfold Poller.goes_on in Hgo.
    destruct (iteration j); [|reflexivity]. discriminate Hgo. apply in_seq. lia.
  - intros j Hj. apply in_seq in Hj. unfold Poller.goes_on. rewrite (Hgo j); [reflexivity|lia].
Qed.


(** The whole call: [wait_for_condition] starts the loop in the state of
    the loop test number 0. *)
Lemma wait_for_condition_loop fuel :
  wait_for_condition fuel f timeout interval description start_time =
  loop fuel (at_test 0).
Proof. reflexivity. Qed.

End Run.

(** A run that ends at iteration [n] gives its result with fuel [S n], and
    no amount of fuel gives another one. *)
Lemma wait_for_condition_at f timeout interval description clock n x :
  (forall j, (j < n)%nat -> iteration f clock timeout interval description j = None) ->
  iteration f clock timeout interval description n = Some x ->
  wait_for_condition (S n) f timeout interval description clock = Some x /\
  forall fuel y,
    wait_for_condition fuel f timeout interval description clock = Some y -> y = x.
Proof.
  intros Hgo Hend. split.
  - rewrite wait_for_condition_loop. apply (poll_loop_first _ _ _ _ _ _ 0%nat n); auto.
  - intros fuel y Hy. rewrite wait_for_condition_loop in Hy.
    apply poll_loop_inv in Hy. destruct Hy as (m & _ & Hgo' & Hend'). cbn in Hgo', Hend'.
    destruct (Nat.lt_trichotomy m n) as [Hlt|[->|Hgt]].
    + rewrite (Hgo m Hlt) in Hend'. discriminate.
    + congruence.
    + rewrite (Hgo' n Hgt) in Hend. discriminate.
Qed.

(** How an iteration can end the loop. *)
Lemma iteration_Some f clock timeout interval description n x :
  iteration f clock timeout interval description n = Some x ->
  (tick f clock interval n - clock < timeout /\
   result (poll f clock interval n) = Returns true /\
   x = (Return true, after_call f clock interval description n)) \/
  (tick f clock interval n - clock < timeout /\
   (exists e, result (poll f clock interval n) = Raises e /\
      isinstance_Exception e = false /\
      x = (Propagate e, after_call f clock interval description n))) \/
  (timeout <= tick f clock interval n - clock /\
   x = (Return false,
        print (TimeoutWaiting description timeout) (at_test f clock interval description n))).
Proof.
  unfold iteration.
  destruct (Z.ltb_spec (tick f clock interval n - clock) timeout) as [Hlt|Hge].
  - destruct (result (poll f clock interval n)) as [[|]|e] eqn:Hr.
    + intros [= <-]. left. auto.
    + discriminate.
    + destruct (isinstance_Exception e) eqn:He; [discriminate|].
      intros [= <-]. right. left. split; [exact Hlt|]. exists e. auto.
  - intros [= <-]. right. right. auto.
Qed.





(** When a call made by the run (a call made before the timeout has
    elapsed, the earlier ones having let the loop go on) returns a truthy
    value, the poller returns true, and no amount of fuel gives another
    result.  It returns when that call returns, without sleeping: less
    than [timeout] plus the time the call itself took after the start. *)
Lemma returns_true_at f timeout interval description clock k :
  polled f clock timeout interval description k = true ->
  result (poll f clock interval k) = Returns true ->
  wait_for_condition (S k) f timeout interval description clock
    = Some (Return true, after_call f clock interval description k) /\
  (forall fuel r w,
      wait_for_condition fuel f timeout interval description clock = Some (r, w) ->
      r = Return true /\ w = after_call f clock interval description k) /\
  now (after_call f clock interval description k) - clock
    < timeout + Z.of_nat (cost (poll f clock interval k)).
Proof.
  intros Hk Hr. apply polled_spec in Hk. destruct Hk as [Hgo Ht].
  assert (Hend : iteration f clock timeout interval description k
                 = Some (Return true, after_call f clock interval description k)).
  { unfold iteration. destruct (Z.ltb_spec (tick f clock interval k - clock) timeout); [|lia].
    rewrite Hr. reflexivity. }
  destruct (wait_for_condition_at _ _ _ _ _ _ _ Hgo Hend) as [Hrun Huniq].
  split; [exact Hrun|]. split.
  - intros fuel r w H. specialize (Huniq _ _ H). inversion Huniq. auto.
  - cbn [now after_call]. lia.
Qed.

(** C2: for every predicate, timeout, description and interval (a
    duration, so not negative), when a call of the predicate made by the
    poller returns a truthy value within the timeout, that is no later
    than [timeout] after the poller started, the poller returns true, and
    no amount of fuel gives another result.  It returns at the moment
    that call returns: within [timeout], hence within
    [timeout + interval], of starting. *)
Theorem wait_for_condition_true
    f timeout interval description clock k :
  0 <= interval ->
  polled f clock timeout interval description k = true ->
  result (poll f clock interval k) = Returns true ->
  now (after_call f clock interval description k) - clock <= timeout ->
  exists fuel w',
    wait_for_condition fuel f timeout interval description clock
      = Some (Return true, w') /\
    (forall fuel' r w'',
        wait_for_condition fuel' f timeout interval description clock
          = Some (r, w'') -> r = Return true /\ w'' = w') /\
    calls w' = S k /\
    now w' = tick f clock interval k + Z.of_nat (cost (poll f clock interval k)) /\
    now w' - clock <= timeout /\
    now w' - clock <= timeout + interval.
Proof.
  intros Hinterval Hk Hr Hwithin.
  destruct (returns_true_at f timeout interval description clock k Hk Hr)
    as (Hrun & Huniq & _).
  exists (S k), (after_call f clock interval description k).
  split; [exact Hrun|]. split; [exact Huniq|].
  split; [reflexivity|]. split; [reflexivity|]. split; [exact Hwithin|]. lia.
Qed.

Lemma wait_for_condition_true_witness :
  exists fuel w',
    wait_for_condition fuel flaky_then_done 5 1 "run completed" 100
      = Some (Return true, w') /\
    (forall fuel' r w'',
        wait_for_condition fuel' flaky_then_done 5 1 "run completed" 100
          = Some (r, w'') -> r = Return true /\ w'' = w') /\
    calls w' = 4%nat /\
    now w' = tick flaky_then_done 100 1 3
             + Z.of_nat (cost (poll flaky_then_done 100 1 3)) /\
    now w' - 100 <= 5 /\
    now w' - 100 <= 5 + 1.
Proof.
  apply (wait_for_condition_true flaky_then_done 5 1 "run completed" 100 3);
    [lia | reflexivity | reflexivity | cbn; lia].
Defined.

(** In particular a predicate that is truthy at every call ends the poll
    at its first call: the poller returns true when that call returns,
    so within the timeout when the call does. *)
Corollary always_truthy_returns_at_once f timeout interval description clock :
  (forall n t, result (f n t) = Returns true) ->
  0 < timeout ->
  wait_for_condition 1 f timeout interval description clock
    = Some (Return true,
            {| now := clock + Z.of_nat (cost (f 0%nat clock)); calls := 1;
               stdout := [] |}).
Proof.
  intros Hf Ht. unfold wait_for_condition. cbn [poll_loop now].
  destruct (Z.ltb_spec (clock - clock) timeout); [|lia].
  unfold invoke. cbn [calls now stdout]. rewrite Hf. reflexivity.
Qed.

(** The bound of C2 is a bound on calls that return within the timeout.
    A call that starts before the timeout has elapsed and returns a
    truthy value after it still ends the poll with true, at the moment
    it returns: with a timeout of 5 and an interval of 1, a predicate
    that is truthy at every call and takes 10 ticks to answer makes the
    poller return true 10 ticks after the start. *)
Remark truthy_call_returning_late :
  (forall n t, result (answers_after 10 true n t) = Returns true) /\
  exists w',
    wait_for_condition 1 (answers_after 10 true) 5 1 "run completed" 0
      = Some (Return true, w') /\
    (forall fuel y,
        wait_for_condition fuel (answers_after 10 true) 5 1 "run completed" 0
          = Some y -> y = (Return true, w')) /\
    now w' - 0 = 10.
Proof.
  split; [reflexivity|].
  eexists. split; [reflexivity|]. split.
  - apply (wait_for_condition_at _ _ _ _ _ 0%nat); [intros; lia|reflexivity].
  - reflexivity.
Qed.

(** C3, as the code has it: for a predicate that returns a falsy value at
    every call, a positive timeout and a positive interval, the poller
    ends and returns false, and no amount of fuel gives another result.
    It has called the predicate at least once, it never returns before
    the timeout has elapsed, and it returns less than one interval plus
    the time taken by the last call of the predicate after the timeout. *)
Theorem wait_for_condition_false
    f timeout interval description clock :
  (forall n t, result (f n t) = Returns false) ->
  0 < timeout -> 0 < interval ->
  exists fuel w' n,
    wait_for_condition fuel f timeout interval description clock
      = Some (Return false, w') /\
    (forall fuel' r w'',
        wait_for_condition fuel' f timeout interval description clock
          = Some (r, w'') -> r = Return false /\ w'' = w') /\
    calls w' = S n /\
    timeout <= now w' - clock /\
    now w' - clock
      < timeout + interval + Z.of_nat (cost (poll f clock interval n)).
Proof.
  intros Hf Htimeout Hinterval.
  assert (Hpass : time_passes f interval) by (intros n t; lia).
  destruct (run_ends f clock timeout interval description Hpass) as (n & x & Hgo & Hend).
  destruct (wait_for_condition_at _ _ _ _ _ _ _ Hgo Hend) as [Hrun Huniq].
  destruct (iteration_Some _ _ _ _ _ _ _ Hend)
    as [(Ht & Hr & ->)|[(Ht & e & Hr & He & ->)|(Ht & ->)]].
  - unfold poll in Hr. rewrite Hf in Hr. discriminate.
  - unfold poll in Hr. rewrite Hf in Hr. discriminate.
  - destruct n as [|n]; [cbn in Ht; lia|].
    exists (S (S n)),
      (print (TimeoutWaiting description timeout) (at_test f clock interval description (S n))),
      n.
    split; [exact Hrun|]. split.
    { intros fuel' r w'' H. specialize (Huniq _ _ H). inversion Huniq. auto. }
    split; [reflexivity|].
    assert (Hprev : tick f clock interval n - clock < timeout).
    { specialize (Hgo n (Nat.lt_succ_diag_r n)). unfold iteration in Hgo.
      destruct (Z.ltb_spec (tick f clock interval n - clock) timeout); [assumption|discriminate]. }
    cbn [now print at_test]. split; [exact Ht|].
    cbn [tick]. unfold poll. lia.
Qed.

Lemma wait_for_condition_false_witness :
  exists fuel w' n,
    wait_for_condition fuel (answers_after 0 false) 5 2 "run completed" 100
      = Some (Return false, w') /\
    (forall fuel' r w'',
        wait_for_condition fuel' (answers_after 0 false) 5 2 "run completed" 100
          = Some (r, w'') -> r = Return false /\ w'' = w') /\
    calls w' = S n /\
    5 <= now w' - 100 /\
    now w' - 100 < 5 + 2 + Z.of_nat (cost (poll (answers_after 0 false) 100 2 n)).
Proof.
  apply (wait_for_condition_false (answers_after 0 false) 5 2 "run completed" 100);
    [reflexivity | lia | lia].
Defined.

(** C3 as stated fails on a slow predicate.  With a timeout of 5 and an
    interval of 1, a predicate that is falsy at every call and takes 10
    ticks to answer makes the poller return false 11 ticks after the
    start, more than one interval after the timeout. *)
Lemma wait_for_condition_false_late :
  (forall n t, result (answers_after 10 false n t) = Returns false) /\
  exists w',
    wait_for_condition 2 (answers_after 10 false) 5 1 "run completed" 0
      = Some (Return false, w') /\
    (forall fuel y,
        wait_for_condition fuel (answers_after 10 false) 5 1 "run completed" 0
          = Some y -> y = (Return false, w')) /\
    ~ (now w' - 0 <= 5 + 1).
Proof.
  split; [reflexivity|].
  eexists. split; [reflexivity|]. split.
  - apply (wait_for_condition_at _ _ _ _ _ 1%nat); [|reflexivity].
    intros [|j] Hj; [reflexivity|lia].
  - cbn. lia.
Qed.

Lemma errors_all_logged f clock interval description n :
  (forall k, exists e, result (poll f clock interval k) = Raises e /\
                       isinstance_Exception e = true) ->
  length (List.filter is_error (errors f clock interval description n)) = n.
Proof.
  intros Hall. induction n as [|n IH]; [reflexivity|].
  cbn [errors]. destruct (Hall n) as (e & Hr & He). rewrite Hr, He.
  rewrite List.filter_app, length_app, IH. cbn. lia.
Qed.

Lemma tick_instant f clock interval k :
  (forall n t, cost (f n t) = 0%nat) -> 0 <= interval ->
  tick f clock interval k = clock + Z.of_nat k * interval.
Proof.
  intros Hc Hi. induction k as [|k IH]; [cbn; lia|].
  cbn [tick]. rewrite IH, Hc. nia.
Qed.

(** C4, as the code has it.  The clock has [hz] ticks per second; the
    poller is called with a timeout of 5 seconds and an interval of 1
    second, and every call of the predicate raises a transport error
    within less than two thirds of a second.  Then the poller returns
    false (and no amount of fuel gives another result), it has printed
    one [Error checking] line per call of the predicate, at least 4 of
    them, and exactly 5 when the predicate fails at once. *)
Theorem wait_for_condition_transport_errors
    hz f description clock :
  0 < hz ->
  (forall n t, exists msg, result (f n t) = Raises (TransportError msg)) ->
  (forall n t, 3 * Z.of_nat (cost (f n t)) < 2 * hz) ->
  exists fuel w',
    wait_for_condition fuel f (5 * hz) hz description clock
      = Some (Return false, w') /\
    (forall fuel' r w'',
        wait_for_condition fuel' f (5 * hz) hz description clock
          = Some (r, w'') -> r = Return false /\ w'' = w') /\
    errors_logged w' = calls w' /\
    (4 <= errors_logged w')%nat /\
    ((forall n t, cost (f n t) = 0%nat) -> errors_logged w' = 5%nat).
Proof.
  intros Hhz Hf Hcost.
  assert (Hpass : time_passes f hz) by (intros n t; lia).
  assert (Hall : forall k, exists e, result (poll f clock hz k) = Raises e /\
                                     isinstance_Exception e = true).
  { intros k. destruct (Hf k (tick f clock hz k)) as [msg Hm].
    exists (TransportError msg). split; [exact Hm|reflexivity]. }
  destruct (run_ends f clock (5 * hz) hz description Hpass) as (n & x & Hgo & Hend).
  destruct (wait_for_condition_at _ _ _ _ _ _ _ Hgo Hend) as [Hrun Huniq].
  destruct (iteration_Some _ _ _ _ _ _ _ Hend)
    as [(Ht & Hr & ->)|[(Ht & e & Hr & He & ->)|(Ht & ->)]].
  - destruct (Hall n) as (e & He & _). congruence.
  - destruct (Hall n) as (e' & He' & Hi). congruence.
  - exists (S n),
      (print (TimeoutWaiting description (5 * hz)) (at_test f clock hz description n)).
    split; [exact Hrun|]. split.
    { intros fuel' r w'' H. specialize (Huniq _ _ H). inversion Huniq. auto. }
    assert (Hlog : errors_logged
              (print (TimeoutWaiting description (5 * hz)) (at_test f clock hz description n))
            = n).
    { unfold errors_logged. cbn [stdout print at_test].
      rewrite List.filter_app, length_app, errors_all_logged by exact Hall. cbn. lia. }
    rewrite Hlog. split; [reflexivity|]. split.
    + destruct (Nat.lt_ge_cases 3 n) as [|Hle]; [lia|]. exfalso.
      pose proof (tick_mono f clock hz n 3 Hle) as Hm.
      cbn [tick] in Hm.
      pose proof (Hcost 0%nat clock) as H0.
      pose proof (Hcost 1%nat (tick f clock hz 1)) as H1.
      pose proof (Hcost 2%nat (tick f clock hz 2)) as H2.
      cbn [tick] in H1, H2. lia.
    + intros Hzero.
      rewrite (tick_instant f clock hz n Hzero) in Ht by lia.
      destruct (Nat.lt_trichotomy n 5) as [Hlt|[->|Hgt]]; [nia|reflexivity|].
      specialize (Hgo 5%nat Hgt). apply iteration_late in Hgo; [contradiction|].
      rewrite (tick_instant f clock hz 5 Hzero) by lia. lia.
Qed.

Lemma wait_for_condition_transport_errors_witness :
  exists fuel w',
    wait_for_condition fuel always_refused (5 * 1000) 1000 "run completed" 0
      = Some (Return false, w') /\
    (forall fuel' r w'',
        wait_for_condition fuel' always_refused (5 * 1000) 1000 "run completed" 0
          = Some (r, w'') -> r = Return false /\ w'' = w') /\
    errors_logged w' = calls w' /\
    (4 <= errors_logged w')%nat /\
    ((forall n t, cost (always_refused n t) = 0%nat) -> errors_logged w' = 5%nat).
Proof.
  apply (wait_for_condition_transport_errors 1000 always_refused "run completed" 0).
  - lia.
  - intros n t. exists "connection refused". reflexivity.
  - intros n t. cbn. lia.
Defined.

(** C4 as stated fails on a predicate that is slow to fail.  On a clock
    of 1000 ticks per second, with a timeout of 5 seconds and an interval
    of 1 second, a predicate that raises a transport error one second
    after each call is called at 0, 2 and 4 seconds: the poller returns
    false with 3 logged errors, fewer than 4. *)
Lemma wait_for_condition_three_errors :
  (forall n t, result (refused_after 1000 n t)
               = Raises (TransportError "connect timeout")) /\
  exists w',
    wait_for_condition 4 (refused_after 1000) (5 * 1000) 1000 "run completed" 0
      = Some (Return false, w') /\
    (forall fuel y,
        wait_for_condition fuel (refused_after 1000) (5 * 1000) 1000 "run completed" 0
          = Some y -> y = (Return false, w')) /\
    errors_logged w' = 3%nat /\
    ~ (4 <= errors_logged w')%nat.
Proof.
  split; [reflexivity|].
  eexists. split; [reflexivity|]. split.
  - apply (wait_for_condition_at _ _ _ _ _ 3%nat); [|reflexivity].
    intros [|[|[|j]]] Hj; [reflexivity|reflexivity|reflexivity|lia].
  - cbn. split; [reflexivity|lia].
Qed.

(** What a result of true means, for every predicate: some call made
    before the timeout had elapsed returned a truthy value, and the poller
    returned when that call did. *)
Theorem wait_for_condition_true_means
    fuel f timeout interval description clock w' :
  wait_for_condition fuel f timeout interval description clock
    = Some (Return true, w') ->
  exists k,
    polled f clock timeout interval description k = true /\
    result (poll f clock interval k) = Returns true /\
    calls w' = S k /\
    now w' = tick f clock interval k + Z.of_nat (cost (poll f clock interval k)).
Proof.
  intros H. rewrite wait_for_condition_loop in H.
  apply poll_loop_inv in H. destruct H as (n & _ & Hgo & Hend). cbn in Hgo, Hend.
  destruct (iteration_Some _ _ _ _ _ _ _ Hend)
    as [(Ht & Hr & Hx)|[(Ht & e & Hr & He & Hx)|(Ht & Hx)]];
    inversion Hx; subst.
  exists n. split; [apply polled_spec; auto|]. auto.
Qed.

Lemma wait_for_condition_true_means_witness :
  exists k,
    polled flaky_then_done 100 5 1 "run completed" k = true /\
    result (poll flaky_then_done 100 1 k) = Returns true /\
    calls {| now := 103; calls := 4;
             stdout := [ErrorChecking "run completed" (TransportError "connection reset");
                        ErrorChecking "run completed" (TransportError "connection reset")] |}
      = S k /\
    now {| now := 103; calls := 4;
           stdout := [ErrorChecking "run completed" (TransportError "connection reset");
                      ErrorChecking "run completed" (TransportError "connection reset")] |}
      = tick flaky_then_done 100 1 k + Z.of_nat (cost (poll flaky_then_done 100 1 k)).
Proof.
  apply (wait_for_condition_true_means 4 flaky_then_done 5 1 "run completed" 100).
  reflexivity.
Defined.

(** More fuel does not change the result of a run that has ended. *)
Lemma wait_for_condition_fuel
    fuel extra f timeout interval description clock x :
  wait_for_condition fuel f timeout interval description clock = Some x ->
  wait_for_condition (fuel + extra) f timeout interval description clock = Some x.
Proof.
  intros H. rewrite wait_for_condition_loop in H |- *.
  apply poll_loop_inv in H. destruct H as (n & Hn & Hgo & Hend).
  apply (poll_loop_first _ _ _ _ _ _ 0%nat n); auto. lia.
Qed.

(** C9: with a timeout that is zero or negative the poller returns false
    at the first loop test: the clock has not moved, the predicate has not
    been called (whatever it would have returned), and only the timeout
    line has been printed. *)
Theorem wait_for_condition_no_time
    fuel f timeout interval description clock :
  timeout <= 0 ->
  wait_for_condition (S fuel) f timeout interval description clock =
  Some (Return false,
        {| now := clock; calls := 0;
           stdout := [TimeoutWaiting description timeout] |}).
Proof.
  intros H. unfold wait_for_condition. cbn [poll_loop now].
  destruct (Z.ltb_spec (clock - clock) timeout); [lia|reflexivity].
Qed.

Lemma wait_for_condition_no_time_witness :
  wait_for_condition 1 (answers_after 0 true) 0 2 "API readiness check" 100 =
  Some (Return false,
        {| now := 100; calls := 0;
           stdout := [TimeoutWaiting "API readiness check" 0] |}).
Proof.
  apply (wait_for_condition_no_time 0 (answers_after 0 true) 0 2 "API readiness check" 100).
  lia.
Defined.

End PollerFacts.

(** ** The job-status polls *)
Module CallSitesFacts.
Import Py Poller Client CallSites.
Local Open Scope Z_scope.

Section WithNetwork.
Context {Net : Type}.
Context (send : request -> Net -> (string + response) * Net).
Context (loads : string -> option json).
Context (urljoin : string -> string -> string).

(** C5, as the code has it.  When the job record fetched has the status
    [st], the predicate of test_agent_recon.py returns true exactly when
    [st] is one of completed, failed, error, partial, and the predicate of
    test_agent_creds.py exactly when [st] is one of completed, failed,
    error; both return false on pending, running and stopped.  In the
    poll of test_agent_creds.py, where the predicate itself is passed to
    the poller, a call made by the run that fetches the status [st] ends
    the poll phase (the poller returns true when the call returns) when
    [st] is one of completed, failed, error, and lets the loop go on to
    its next test for every other status. *)
Theorem job_status_predicates run_id s st :
  fetches send loads urljoin run_id s st ->
  fst (_check_run_completed send loads urljoin run_id s)
    = Ok (bool_decide (st ∈ ["completed"; "failed"; "error"; "partial"])) /\
  fst (check_completed send loads urljoin run_id s)
    = Ok (bool_decide (st ∈ ["completed"; "failed"; "error"])) /\
  (st ∈ non_terminal_statuses \/ st = "stopped" ->
   fst (_check_run_completed send loads urljoin run_id s) = Ok false /\
   fst (check_completed send loads urljoin run_id s) = Ok false) /\
  (forall states latency timeout interval description clock k,
      let f := condition_func_of
                 (AsyncDef (check_completed send loads urljoin run_id))
                 states latency in
      states k = s ->
      polled f clock timeout interval description k = true ->
      iteration f clock timeout interval description k =
        (if bool_decide (st ∈ ["completed"; "failed"; "error"])
         then Some (Return true, after_call f clock interval description k)
         else None) /\
      (st ∈ ["completed"; "failed"; "error"] ->
       wait_for_condition (S k) f timeout interval description clock
         = Some (Return true, after_call f clock interval description k) /\
       forall fuel r w,
         wait_for_condition fuel f timeout interval description clock = Some (r, w) ->
         r = Return true /\ w = after_call f clock interval description k)).
Proof.
  intros Hfetch.
  destruct (ClientFacts.job_status_returned send loads urljoin run_id s st Hfetch)
    as (H1 & H2 & H3).
  split; [exact H1|]. split; [exact H2|]. split; [exact H3|].
  intros states latency timeout interval description clock k f Hs Hk.
  assert (Hr : result (poll f clock interval k)
               = Returns (bool_decide (st ∈ ["completed"; "failed"; "error"]))).
  { unfold poll, f, condition_func_of. cbn [result call_condition]. rewrite Hs.
    destruct (check_completed send loads urljoin run_id s) as [[b|e] s'];
      cbn [fst] in H2; [|discriminate].
    injection H2 as ->. reflexivity. }
  assert (Hit : iteration f clock timeout interval description k =
                (if bool_decide (st ∈ ["completed"; "failed"; "error"])
                 then Some (Return true, after_call f clock interval description k)
                 else None)).
  { pose proof Hk as Hk'. apply PollerFacts.polled_spec in Hk'. destruct Hk' as [_ Ht].
    unfold iteration. destruct (Z.ltb_spec (tick f clock interval k - clock) timeout); [|lia].
    rewrite Hr. destruct (bool_decide (st ∈ ["completed"; "failed"; "error"])); reflexivity. }
  split; [exact Hit|].
  intros Hin. rewrite bool_decide_eq_true_2 in Hr by exact Hin.
  destruct (PollerFacts.returns_true_at f timeout interval description clock k Hk Hr)
    as (Hrun & Huniq & _).
  split; assumption.
Qed.

(** The poll of test_agent_recon.py.  The lambda it passes is not a
    coroutine function, so the poller does not await what it returns:
    [_check_run_completed] does not run (the state of the instance and of
    the network is left as it was, no request is sent), and with a
    positive timeout the poller returns true when the first call
    returns, whatever the status of the job. *)
Theorem lambda_ends_the_poll_at_once
    (predicate : M (Net:=Net) bool) states latency timeout interval description clock :
  0 < timeout ->
  let f := condition_func_of (LambdaCalling predicate) states latency in
  (forall s, call_condition (LambdaCalling predicate) s = (Returns true, s)) /\
  wait_for_condition 1 f timeout interval description clock
    = Some (Return true,
            {| now := clock + Z.of_nat (latency 0%nat); calls := 1; stdout := [] |}) /\
  (forall fuel r w,
      wait_for_condition fuel f timeout interval description clock = Some (r, w) ->
      r = Return true /\ calls w = 1%nat).
Proof.
  intros Ht f. split; [reflexivity|].
  assert (Hk : polled f clock timeout interval description 0 = true).
  { apply PollerFacts.polled_spec. split; [intros; lia|]. cbn [tick]. lia. }
  destruct (PollerFacts.returns_true_at f timeout interval description clock 0 Hk eq_refl)
    as (Hrun & Huniq & _).
  split; [exact Hrun|].
  intros fuel r w H. destruct (Huniq _ _ _ H) as [-> ->]. split; reflexivity.
Qed.

End WithNetwork.

Lemma job_status_predicates_witness :
  fst (_check_run_completed job_server job_loads concat_url "1"
         (fresh_state "http://api/" 30 "partial"))
    = Ok (bool_decide ("partial" ∈ ["completed"; "failed"; "error"; "partial"])) /\
  fst (check_completed job_server job_loads concat_url "1"
         (fresh_state "http://api/" 30 "partial"))
    = Ok (bool_decide ("partial" ∈ ["completed"; "failed"; "error"])) /\
  ("partial" ∈ non_terminal_statuses \/ "partial" = "stopped" ->
   fst (_check_run_completed job_server job_loads concat_url "1"
          (fresh_state "http://api/" 30 "partial")) = Ok false /\
   fst (check_completed job_server job_loads concat_url "1"
          (fresh_state "http://api/" 30 "partial")) = Ok false) /\
  (forall states latency timeout interval description clock k,
      let f := condition_func_of
                 (AsyncDef (check_completed job_server job_loads concat_url "1"))
                 states latency in
      states k = fresh_state "http://api/" 30 "partial" ->
      polled f clock timeout interval description k = true ->
      iteration f clock timeout interval description k =
        (if bool_decide ("partial" ∈ ["completed"; "failed"; "error"])
         then Some (Return true, after_call f clock interval description k)
         else None) /\
      ("partial" ∈ ["completed"; "failed"; "error"] ->
       wait_for_condition (S k) f timeout interval description clock
         = Some (Return true, after_call f clock interval description k) /\
       forall fuel r w,
         wait_for_condition fuel f timeout interval description clock = Some (r, w) ->
         r = Return true /\ w = after_call f clock interval description k)).
Proof.
  apply (job_status_predicates job_server job_loads concat_url "1"
           (fresh_state "http://api/" 30 "partial") "partial").
  exists (Response 200 "partial"), "partial", {[ "status" := JStr "partial" ]}.
  repeat split; reflexivity.
Defined.

(** The job server answers every request with the status it holds, and
    keeps it. *)
Lemma job_server_keeps_status run_id (s : state (Net:=string)) :
  net (snd (call_condition
              (AsyncDef (check_completed job_server job_loads concat_url run_id)) s))
  = net s.
Proof.
  cbn [call_condition].
  assert (H : net (snd (check_completed job_server job_loads concat_url run_id s)) = net s).
  { unfold check_completed, bind.
    change (get job_server job_loads concat_url ("/runs/" +:+ run_id) JNull)
      with (call job_server job_loads concat_url (CallGet ("/runs/" +:+ run_id) JNull)).
    rewrite ClientFacts.call_eq. cbn [fst Client.verb_result job_server is_success
      status_code content job_loads Z.leb andb getitem].
    unfold after_request, client_request. rewrite ClientFacts.net_with_client.
    cbn [job_server fst snd net].
    repeat match goal with
           | |- context [match ?x with _ => _ end] => destruct x
           end; reflexivity. }
  destruct (check_completed job_server job_loads concat_url run_id s) as [[b|e] s'];
    exact H.
Qed.

(** C5 as stated fails on the status stopped: it is one of the five
    terminal statuses, and both predicates return false on a job record
    that has it; the predicate of test_agent_creds.py returns false on
    partial as well.  So the poll of test_agent_creds.py (a timeout of
    180 seconds and an interval of 10) on a job that has been stopped
    does not end before the timeout: the predicate is called 18 times,
    the job being stopped at every call, and the poller returns false
    after 180 seconds. *)
Lemma stopped_does_not_end_the_poll :
  "stopped" ∈ terminal_statuses /\
  fetches job_server job_loads concat_url "1"
    (fresh_state "http://api/" 30 "stopped") "stopped" /\
  fst (_check_run_completed job_server job_loads concat_url "1"
         (fresh_state "http://api/" 30 "stopped")) = Ok false /\
  fst (check_completed job_server job_loads concat_url "1"
         (fresh_state "http://api/" 30 "stopped")) = Ok false /\
  "partial" ∈ terminal_statuses /\
  fst (check_completed job_server job_loads concat_url "1"
         (fresh_state "http://api/" 30 "partial")) = Ok false /\
  let c := AsyncDef (check_completed job_server job_loads concat_url "1") in
  let states := undisturbed c (fresh_state "http://api/" 30 "stopped") in
  let f := condition_func_of c states (fun _ => 0%nat) in
  (forall n, net (states n) = "stopped") /\
  exists w,
    wait_for_condition 19 f 180 10 "condition" 0 = Some (Return false, w) /\
    (forall fuel y,
        wait_for_condition fuel f 180 10 "condition" 0 = Some y ->
        y = (Return false, w)) /\
    calls w = 18%nat /\
    now w = 180.
Proof.
  split; [unfold terminal_statuses; repeat constructor|].
  split.
  { exists (Response 200 "stopped"), "stopped", {[ "status" := JStr "stopped" ]}.
    repeat split; reflexivity. }
  split; [reflexivity|]. split; [reflexivity|].
  split; [unfold terminal_statuses; repeat constructor|]. split; [reflexivity|].
  cbv zeta. split.
  { induction n as [|n IH]; [reflexivity|].
    unfold undisturbed in *. rewrite Nat.iter_succ, job_server_keeps_status. exact IH. }
  eexists. split; [vm_compute; reflexivity|]. split.
  - apply (PollerFacts.wait_for_condition_at _ _ _ _ _ 18%nat).
    + intros j Hj. do 18 (destruct j as [|j]; [vm_compute; reflexivity|]). lia.
    + vm_compute. reflexivity.
  - split; reflexivity.
Qed.

(** On a job that is still running, the poll of test_agent_recon.py
    ends at once with true. *)
Lemma lambda_ends_the_poll_at_once_witness :
  let f := condition_func_of
             (LambdaCalling (_check_run_completed job_server job_loads concat_url "1"))
             (fun _ => fresh_state "http://api/" 30 "running") (fun _ => 0%nat) in
  (forall s,
      call_condition
        (LambdaCalling (_check_run_completed job_server job_loads concat_url "1")) s
      = (Returns true, s)) /\
  wait_for_condition 1 f 120 5 "Recon run 1 completion" 0
    = Some (Return true, {| now := 0 + Z.of_nat 0; calls := 1; stdout := [] |}) /\
  (forall fuel r w,
      wait_for_condition fuel f 120 5 "Recon run 1 completion" 0 = Some (r, w) ->
      r = Return true /\ calls w = 1%nat).
Proof.
  apply (lambda_ends_the_poll_at_once
           (_check_run_completed job_server job_loads concat_url "1")
           (fun _ => fresh_state "http://api/" 30 "running") (fun _ => 0%nat)
           120 5 "Recon run 1 completion" 0).
  lia.
Defined.

End CallSitesFacts.

(** ** The retry decorator *)
Module RetryFacts.
Import Py Retry.
Local Open Scope Z_scope.

Section WithDelays.
Context {num : Type} (mul : num -> num -> num).
Context {A : Type}.

(** [k] failed attempts in a row, each one retried. *)
Lemma attempts_failures (func : nat -> res A) (failing : nat -> exn)
    (max_retries : Z) (backoff : num) k :
  forall a rest last d (w : world (num:=num)),
    calls w = a ->
    (forall j, (j < k)%nat ->
               func (a + j)%nat = Err (failing (a + j)%nat) /\
               isinstance_Exception (failing (a + j)%nat) = true /\
               Z.of_nat (a + j) < max_retries) ->
    exists d' w',
      attempts mul (seq a k ++ rest) func max_retries backoff last d w =
      attempts mul rest func max_retries backoff
        (match k with
         | O => last
         | S k' => Some (failing (a + k')%nat)
         end) d' w' /\
      calls w' = (a + k)%nat /\
      sleeps w' = sleeps w ++ delays mul d backoff k.
Proof.
  induction k as [|k IH]; intros a rest last d w Ha Hfail; subst a.
  - exists d, w. cbn. rewrite Nat.add_0_r, app_nil_r. auto.
  - destruct (Hfail 0%nat ltac:(lia)) as (Hf & He & Hlt).
    rewrite Nat.add_0_r in Hf, He, Hlt.
    cbn [seq app attempts]. rewrite Hf, He.
    destruct (Z.ltb_spec (Z.of_nat (calls w)) max_retries) as [_|?]; [|lia].
    destruct (IH (S (calls w)) rest (Some (failing (calls w))) (mul d backoff)
                (sleep d (print (AttemptFailed (Z.of_nat (calls w) + 1)
                                   (failing (calls w)) d) (called w))))
      as (d' & w' & Heq & Hc & Hs); [reflexivity| |].
    + intros j Hj. replace (S (calls w) + j)%nat with (calls w + S j)%nat by lia.
      apply Hfail. lia.
    + exists d', w'. rewrite Heq. split; [|split].
      * destruct k as [|k']; [rewrite Nat.add_0_r; reflexivity|].
        replace (S (calls w) + k')%nat with (calls w + S k')%nat by lia. reflexivity.
      * lia.
      * rewrite Hs. cbn. rewrite <- app_assoc. reflexivity.
Qed.

(** The wrapper ends with the first call of the function that returns
    (or raises something that is not an [Exception]), provided that call
    is one of the [max_retries + 1] attempts and every call before it
    raised an [Exception]: its result is the result of that call, the
    function has been called [k + 1] times, and the wrapper has slept [k]
    times, for [delay], [delay * backoff], [delay * backoff * backoff] and
    so on. *)
Theorem retry_returns_first_success (func : nat -> res A) (failing : nat -> exn)
    (max_retries : Z) (delay backoff : num) (k : nat) :
  Z.of_nat k <= max_retries ->
  (forall j, (j < k)%nat ->
             func j = Err (failing j) /\ isinstance_Exception (failing j) = true) ->
  final (func k) ->
  fst (retry_on_failure mul max_retries delay backoff func) = func k /\
  calls (snd (retry_on_failure mul max_retries delay backoff func)) = S k /\
  sleeps (snd (retry_on_failure mul max_retries delay backoff func))
    = delays mul delay backoff k.
Proof.
  intros Hk Hfail Hfinal. unfold retry_on_failure.
  assert (Hseq : seq 0 (Z.to_nat (max_retries + 1))
                 = seq 0 k ++ k :: seq (S k) (Z.to_nat max_retries - k)).
  { replace (Z.to_nat (max_retries + 1)) with (k + S (Z.to_nat max_retries - k))%nat by lia.
    rewrite seq_app. reflexivity. }
  rewrite Hseq. clear Hseq.
  edestruct (attempts_failures func failing max_retries backoff k 0%nat
               (k :: seq (S k) (Z.to_nat max_retries - k)) None delay
               {| calls := 0; sleeps := []; stdout := [] |})
    as (d' & w' & Heq & Hc & Hs).
  - reflexivity.
  - intros j Hj. cbn. destruct (Hfail j Hj). repeat split; auto. lia.
  - cbn [Nat.add] in Heq. rewrite Heq. cbn [attempts]. cbn in Hc. rewrite Hc.
    unfold final in Hfinal. destruct (func k) as [a|e].
    + cbn. rewrite Hc. auto.
    + rewrite Hfinal. cbn. rewrite Hc. auto.
Qed.

(** When every one of the [max_retries + 1] attempts raises an
    [Exception], the wrapper raises the exception of the last attempt: the
    function has been called [max_retries + 1] times, the wrapper has slept
    [max_retries] times (not after the last attempt), and the last line it
    printed says that all attempts failed. *)
Theorem retry_raises_last_exception (func : nat -> res A) (failing : nat -> exn)
    (max_retries : Z) (delay backoff : num) :
  0 <= max_retries ->
  (forall j, Z.of_nat j <= max_retries ->
             func j = Err (failing j) /\ isinstance_Exception (failing j) = true) ->
  fst (retry_on_failure mul max_retries delay backoff func)
    = Err (failing (Z.to_nat max_retries)) /\
  calls (snd (retry_on_failure mul max_retries delay backoff func))
    = S (Z.to_nat max_retries) /\
  sleeps (snd (retry_on_failure mul max_retries delay backoff func))
    = delays mul delay backoff (Z.to_nat max_retries) /\
  last (stdout (snd (retry_on_failure mul max_retries delay backoff func)))
    = Some (AllFailed (max_retries + 1)).
Proof.
  intros Hm Hfail. unfold retry_on_failure.
  replace (Z.to_nat (max_retries + 1)) with (S (Z.to_nat max_retries)) by lia.
  rewrite seq_S. cbn [Nat.add].
  edestruct (attempts_failures func failing max_retries backoff (Z.to_nat max_retries) 0%nat
               [Z.to_nat max_retries] None delay
               {| calls := 0; sleeps := []; stdout := [] |})
    as (d' & w' & Heq & Hc & Hs).
  - reflexivity.
  - intros j Hj. cbn. destruct (Hfail j ltac:(lia)). repeat split; auto. lia.
  - rewrite Heq. cbn [attempts]. cbn in Hc. rewrite Hc.
    destruct (Hfail (Z.to_nat max_retries) ltac:(lia)) as [Hf He]. rewrite Hf, He.
    destruct (Z.ltb_spec (Z.of_nat (Z.to_nat max_retries)) max_retries) as [?|_]; [lia|].
    cbn. rewrite Hc, last_snoc. auto.
Qed.

(** With a negative [max_retries] the loop makes no attempt: the function
    is never called, nothing is printed or slept, and the wrapper raises a
    TypeError (it raises [last_exception], which is still [None]). *)
Theorem retry_without_attempt (func : nat -> res A)
    (max_retries : Z) (delay backoff : num) :
  max_retries < 0 ->
  retry_on_failure mul max_retries delay backoff func =
  (Err (OtherException "TypeError" "exceptions must derive from BaseException"),
   {| calls := 0; sleeps := []; stdout := [] |}).
Proof.
  intros Hm. unfold retry_on_failure.
  replace (Z.to_nat (max_retries + 1)) with 0%nat by lia. reflexivity.
Qed.

End WithDelays.

Lemma retry_returns_first_success_witness :
  fst (retry_on_failure Z.mul 3 1 2 third_time_lucky) = third_time_lucky 2 /\
  calls (snd (retry_on_failure Z.mul 3 1 2 third_time_lucky)) = 3%nat /\
  sleeps (snd (retry_on_failure Z.mul 3 1 2 third_time_lucky))
    = delays Z.mul 1 2 2.
Proof.
  apply (retry_returns_first_success Z.mul third_time_lucky
           (fun _ => TransportError "connection reset") 3 1 2 2).
  - lia.
  - intros [|[|j]] Hj; [split; reflexivity|split; reflexivity|lia].
  - exact I.
Defined.

Lemma retry_raises_last_exception_witness :
  fst (retry_on_failure Z.mul 2 1 2 never_lucky) = Err (TransportError "2") /\
  calls (snd (retry_on_failure Z.mul 2 1 2 never_lucky)) = 3%nat /\
  sleeps (snd (retry_on_failure Z.mul 2 1 2 never_lucky)) = delays Z.mul 1 2 2 /\
  last (stdout (snd (retry_on_failure Z.mul 2 1 2 never_lucky)))
    = Some (AllFailed (2 + 1)).
Proof.
  apply (retry_raises_last_exception Z.mul never_lucky
           (fun n => TransportError (String (Ascii.ascii_of_nat (48 + n)) "")) 2 1 2).
  - lia.
  - intros j Hj. split; reflexivity.
Defined.

Lemma retry_without_attempt_witness :
  retry_on_failure Z.mul (-1) 1 2 third_time_lucky =
  (Err (OtherException "TypeError" "exceptions must derive from BaseException"),
   {| calls := 0; sleeps := []; stdout := [] |}).
Proof.
  apply (retry_without_attempt Z.mul third_time_lucky (-1) 1 2). lia.
Defined.

End RetryFacts.

(** ** The resource manager *)
Module ResourcesFacts.
Import Py Resources.

Lemma omap_rev {X Y} (f : X -> option Y) (l : list X) :
  omap f (rev l) = rev (omap f l).
Proof.
  induction l as [|x l IH]; [reflexivity|].
  cbn [rev]. rewrite omap_app, IH. cbn. destruct (f x); cbn; [reflexivity|].
  apply app_nil_r.
Qed.

Lemma with_cleanup_cons r rs :
  with_cleanup (r :: rs) =
  match cleanup_func r with
  | Some _ => [resource_id r]
  | None => []
  end ++ with_cleanup rs.
Proof. unfold with_cleanup. cbn. destruct (cleanup_func r); reflexivity. Qed.

Lemma invoked_app evs evs' : invoked (evs ++ evs') = invoked evs ++ invoked evs'.
Proof. apply omap_app. Qed.

Lemma reported_app evs evs' : reported (evs ++ evs') = reported evs ++ reported evs'.
Proof. apply omap_app. Qed.

(** One resource: the loop body goes on unless the cleanup function
    raises something that is not an [Exception]. *)
Lemma cleanup_one_goes_on r evs :
  (forall f e, cleanup_func r = Some f -> f (resource_id r) = Err e ->
               isinstance_Exception e = true) ->
  exists evs',
    cleanup_one r evs = (None, evs') /\
    invoked evs' = invoked evs ++ match cleanup_func r with
                                  | Some _ => [resource_id r]
                                  | None => []
                                  end /\
    reported evs' = reported evs ++ [(resource_id r, cleaned r)].
Proof.
  intros Hr. unfold cleanup_one, cleaned.
  destruct (cleanup_func r) as [f|] eqn:Hf.
  - destruct (f (resource_id r)) as [u|e] eqn:Hcall.
    + eexists. split; [reflexivity|]. rewrite invoked_app, reported_app. auto.
    + rewrite (Hr f e eq_refl Hcall).
      eexists. split; [reflexivity|]. rewrite invoked_app, reported_app. auto.
  - eexists. split; [reflexivity|]. rewrite invoked_app, reported_app. auto.
Qed.

(** The loop over resources whose cleanup functions raise nothing but
    [Exception]s goes through all of them. *)
Lemma cleanup_loop_all rs :
  cleanups_raise_only_Exception rs ->
  forall evs,
  exists evs',
    cleanup_loop rs evs = (None, evs') /\
    invoked evs' = invoked evs ++ with_cleanup rs /\
    reported evs' = reported evs ++ map (fun r => (resource_id r, cleaned r)) rs.
Proof.
  induction rs as [|r rs IH]; intros Hrs evs.
  - exists evs. cbn. rewrite !app_nil_r. auto.
  - assert (Hrs' : cleanups_raise_only_Exception rs).
    { intros r' f e Hin. apply Hrs. apply elem_of_cons. auto. }
    destruct (cleanup_one_goes_on r evs) as (evs1 & H1 & Hi1 & Hr1).
    { intros f e. apply Hrs. apply elem_of_cons. auto. }
    destruct (IH Hrs' evs1) as (evs' & H2 & Hi2 & Hr2).
    exists evs'. cbn [cleanup_loop]. rewrite H1. split; [exact H2|].
    rewrite Hi2, Hr2, Hi1, Hr1, with_cleanup_cons. cbn [map].
    rewrite <- !app_assoc. auto.
Qed.

(** When no cleanup function raises anything but an [Exception],
    [cleanup_all] returns normally and forgets every resource.  The
    cleanup functions have been called in the reverse of the order in
    which the resources were tracked, each one once and whether or not an
    earlier one failed; one line has been printed per resource, in the
    same order, saying whether it was cleaned up. *)
Theorem cleanup_all_reverse_order s :
  cleanups_raise_only_Exception (created_resources s) ->
  fst (cleanup_all s) = Ok tt /\
  created_resources (snd (cleanup_all s)) = [] /\
  invoked (events (snd (cleanup_all s)))
    = invoked (events s) ++ rev (with_cleanup (created_resources s)) /\
  reported (events (snd (cleanup_all s)))
    = reported (events s)
      ++ rev (map (fun r => (resource_id r, cleaned r)) (created_resources s)).
Proof.
  intros Hrs. unfold cleanup_all.
  destruct (cleanup_loop_all (rev (created_resources s))) with (evs := events s)
    as (evs' & -> & Hi & Hr).
  - intros r f e Hin. apply Hrs. apply list_elem_of_In. apply in_rev.
    apply list_elem_of_In. exact Hin.
  - cbn [fst snd created_resources events]. rewrite Hi, Hr.
    unfold with_cleanup. rewrite omap_rev, map_rev. auto.
Qed.

Lemma cleanup_all_reverse_order_witness :
  fst (cleanup_all
         (track_resource "document" "doc-2" (Some failing_cleanup)
            (track_resource "index" "idx-1" (Some ok_cleanup)
               (track_resource "run" "run-0" None __init__)))) = Ok tt /\
  created_resources
    (snd (cleanup_all
            (track_resource "document" "doc-2" (Some failing_cleanup)
               (track_resource "index" "idx-1" (Some ok_cleanup)
                  (track_resource "run" "run-0" None __init__))))) = [] /\
  invoked
    (events
       (snd (cleanup_all
               (track_resource "document" "doc-2" (Some failing_cleanup)
                  (track_resource "index" "idx-1" (Some ok_cleanup)
                     (track_resource "run" "run-0" None __init__))))))
    = invoked [] ++ rev (with_cleanup
                           [Resource "run" "run-0" None;
                            Resource "index" "idx-1" (Some ok_cleanup);
                            Resource "document" "doc-2" (Some failing_cleanup)]) /\
  reported
    (events
       (snd (cleanup_all
               (track_resource "document" "doc-2" (Some failing_cleanup)
                  (track_resource "index" "idx-1" (Some ok_cleanup)
                     (track_resource "run" "run-0" None __init__))))))
    = reported []
      ++ rev (map (fun r => (resource_id r, cleaned r))
                [Resource "run" "run-0" None;
                 Resource "index" "idx-1" (Some ok_cleanup);
                 Resource "document" "doc-2" (Some failing_cleanup)]).
Proof.
  apply (cleanup_all_reverse_order
           (track_resource "document" "doc-2" (Some failing_cleanup)
              (track_resource "index" "idx-1" (Some ok_cleanup)
                 (track_resource "run" "run-0" None __init__)))).
  intros r f e Hin Hf He. cbn in Hin.
  repeat (apply elem_of_cons in Hin; destruct Hin as [->|Hin]);
    try (apply elem_of_nil in Hin; contradiction);
    cbn in Hf; inversion Hf; subst; cbn in He; inversion He; reflexivity.
Defined.

Lemma cleanup_loop_raises rs evs e evs' :
  cleanup_loop rs evs = (Some e, evs') -> isinstance_Exception e = false.
Proof.
  revert evs. induction rs as [|r rs IH]; intros evs H; [discriminate|].
  cbn [cleanup_loop] in H. unfold cleanup_one in H.
  destruct (cleanup_func r) as [f|]; [|eauto].
  destruct (f (resource_id r)) as [u|e0]; [eauto|].
  destruct (isinstance_Exception e0) eqn:He; [eauto|].
  inversion H; subst. exact He.
Qed.

(** What leaves [cleanup_all] is never an [Exception], and when something
    does leave it the list of tracked resources is as it was: also the
    resources that have just been cleaned up stay tracked. *)
Theorem cleanup_all_interrupted s e s' :
  cleanup_all s = (Err e, s') ->
  isinstance_Exception e = false /\
  created_resources s' = created_resources s.
Proof.
  unfold cleanup_all.
  destruct (cleanup_loop (rev (created_resources s)) (events s)) as [[e0|] evs] eqn:Hloop;
    intros H; inversion H; subst.
  split; [|reflexivity]. eapply cleanup_loop_raises; eauto.
Qed.

Lemma cleanup_all_interrupted_witness :
  isinstance_Exception (ControlSignal "KeyboardInterrupt") = false /\
  created_resources
    {| created_resources :=
         [Resource "index" "idx-1" (Some interrupted_cleanup);
          Resource "document" "doc-2" (Some ok_cleanup)];
       events := [Invoked "doc-2"; CleanedUp "document" "doc-2"; Invoked "idx-1"] |}
  = created_resources
      (track_resource "document" "doc-2" (Some ok_cleanup)
         (track_resource "index" "idx-1" (Some interrupted_cleanup) __init__)).
Proof.
  apply (cleanup_all_interrupted
           (track_resource "document" "doc-2" (Some ok_cleanup)
              (track_resource "index" "idx-1" (Some interrupted_cleanup) __init__))
           (ControlSignal "KeyboardInterrupt")).
  reflexivity.
Defined.

End ResourcesFacts.

(** ** Nested fields *)
Module NestedFacts.
Import Py Nested.

Lemma split_dot_nonempty s : split_dot s <> [].
Proof.
  destruct s as [|c s]; cbn; [discriminate|].
  destruct (Ascii.eqb c "."); [discriminate|].
  destruct (split_dot s); discriminate.
Qed.

Lemma split_dot_free s : dot_free s = true -> split_dot s = [s].
Proof.
  induction s as [|c s IH]; [reflexivity|].
  cbn. destruct (Ascii.eqb c "."); [discriminate|].
  cbn. intros H. rewrite (IH H). reflexivity.
Qed.

Lemma split_dot_app s t :
  dot_free s = true -> split_dot (s +:+ String "."%char t) = s :: split_dot t.
Proof.
  induction s as [|c s IH]; [reflexivity|].
  change (String c s +:+ String "."%char t) with (String c (s +:+ String "."%char t)).
  cbn [split_dot dot_free]. destruct (Ascii.eqb c "."); [discriminate|].
  cbn [negb andb]. intros H. rewrite (IH H). reflexivity.
Qed.

(** Splitting undoes joining, for parts that hold no dot. *)
Lemma split_join keys :
  keys <> [] -> forallb dot_free keys = true -> split_dot (join_dot keys) = keys.
Proof.
  induction keys as [|key keys IH]; [congruence|].
  intros _ Hfree. cbn [forallb] in Hfree. apply andb_true_iff in Hfree.
  destruct Hfree as [Hkey Hkeys].
  destruct keys as [|key' keys'].
  - cbn. apply split_dot_free, Hkey.
  - change (join_dot (key :: key' :: keys'))
      with (key +:+ String "."%char (join_dot (key' :: keys'))).
    rewrite split_dot_app by exact Hkey. f_equal. apply IH; [discriminate|exact Hkeys].
Qed.

(** What the loop can raise: a KeyError or a TypeError. *)
Lemma walk_raises value keys e :
  walk value keys = Err e ->
  (exists key, e = KeyError key) \/ (exists msg, e = OtherException "TypeError" msg).
Proof.
  revert value. induction keys as [|key keys IH]; intros value; [discriminate|].
  cbn [walk]. destruct (getitem value key) as [v|e0] eqn:Hget.
  - apply IH.
  - intros [= <-]. destruct value; cbn in Hget;
      try (inversion Hget; right; eauto; fail).
    destruct (m !! key); inversion Hget. left. eauto.
Qed.

Lemma walk_nested keys v : walk (nested keys v) keys = Ok v.
Proof.
  induction keys as [|key keys IH]; [reflexivity|].
  cbn [nested walk getitem]. rewrite lookup_singleton_eq. exact IH.
Qed.

Lemma extract_value_or_default data field_path default :
  extract_nested_field data field_path default
  = Ok match walk data (split_dot field_path) with
       | Ok value => value
       | Err _ => default
       end.
Proof.
  unfold extract_nested_field.
  destruct (walk data (split_dot field_path)) as [value|e] eqn:Hwalk; [reflexivity|].
  destruct (walk_raises _ _ _ Hwalk) as [[key ->]|[msg ->]]; reflexivity.
Qed.

(** [extract_nested_field] never raises, whatever the data, the path and
    the default: it returns the value found or the default. *)
Theorem extract_nested_field_total data field_path default :
  extract_nested_field data field_path default
  = Ok match walk data (split_dot field_path) with
       | Ok value => value
       | Err _ => default
       end.
Proof. apply extract_value_or_default. Qed.

(** Round trip: in the document that nests [v] under the keys [k1], ...,
    [kn] (at least one key, none of which holds a dot), the path
    [k1.k2. ... .kn] finds [v]. *)
Theorem extract_nested_field_finds keys v default :
  keys <> [] ->
  forallb dot_free keys = true ->
  extract_nested_field (nested keys v) (join_dot keys) default = Ok v.
Proof.
  intros Hne Hfree. rewrite extract_value_or_default, split_join by assumption.
  rewrite walk_nested. reflexivity.
Qed.

Lemma extract_nested_field_finds_witness :
  extract_nested_field (nested ["user"; "profile"; "name"] (JStr "alice"))
    (join_dot ["user"; "profile"; "name"]) JNull = Ok (JStr "alice").
Proof.
  apply (extract_nested_field_finds ["user"; "profile"; "name"] (JStr "alice") JNull).
  - discriminate.
  - reflexivity.
Defined.

Lemma split_dot_head key :
  dot_free key = false ->
  exists part parts, split_dot key = part :: parts /\ part <> key.
Proof.
  induction key as [|c key IH]; [discriminate|].
  cbn. destruct (Ascii.eqb c ".") eqn:Hc.
  - intros _. exists "", (split_dot key). split; [reflexivity|discriminate].
  - cbn. intros H. destruct (IH H) as (part & parts & -> & Hne).
    exists (String c part), parts. split; [reflexivity|]. congruence.
Qed.

(** A key that holds a dot cannot be reached: in a dictionary whose only
    key is such a key, looking the key up as a path gives the default. *)
Theorem extract_nested_field_dotted_key key v default :
  dot_free key = false ->
  extract_nested_field (JObj {[ key := v ]}) key default = Ok default.
Proof.
  intros Hdot. rewrite extract_value_or_default.
  destruct (split_dot_head key Hdot) as (part & parts & -> & Hne).
  cbn [walk getitem]. rewrite lookup_singleton_ne by congruence. reflexivity.
Qed.

Lemma extract_nested_field_dotted_key_witness :
  extract_nested_field (JObj {[ "user.name" := JStr "alice" ]}) "user.name" JNull
  = Ok JNull.
Proof.
  apply (extract_nested_field_dotted_key "user.name" (JStr "alice") JNull).
  reflexivity.
Defined.

End NestedFacts.

(** ** Schema validation *)
Module SchemaFacts.
Import Py Schema.

(** [validate_response_schema] returns [True] exactly when every required
    field is a key of the response, whatever the optional fields and
    whatever other keys the response has; otherwise it raises the
    AssertionError that lists the required fields that are missing, in the
    order of [required_fields], and the list is not empty. *)
Theorem validate_response_schema_required response required_fields optional_fields :
  (fst (validate_response_schema response required_fields optional_fields) = ReturnsTrue
   <-> forall field, field ∈ required_fields -> field ∈ map fst response) /\
  (forall missing_fields,
      fst (validate_response_schema response required_fields optional_fields)
        = RaisesAssertionError missing_fields ->
      missing_fields <> [] /\
      missing_fields
        = List.filter (fun field => negb (has_field response field)) required_fields /\
      forall field, field ∈ missing_fields <->
                    field ∈ required_fields /\ field ∉ map fst response).
Proof.
  unfold validate_response_schema.
  set (optional := match optional_fields with Some (f :: fs) => f :: fs | _ => [] end).
  set (missing := List.filter (fun field => negb (has_field response field)) required_fields).
  assert (Hmissing : forall field, field ∈ missing <->
                                   field ∈ required_fields /\ field ∉ map fst response).
  { intros field. unfold missing. rewrite !list_elem_of_In, filter_In, <- !list_elem_of_In.
    unfold has_field. rewrite negb_true_iff, bool_decide_eq_false. reflexivity. }
  split.
  - split.
    + intros H field Hin. destruct missing as [|m ms] eqn:Hm; [|discriminate].
      destruct (decide (field ∈ map fst response)) as [|Hnot]; [assumption|].
      exfalso. apply (elem_of_nil field). apply Hmissing. auto.
    + intros Hall. destruct missing as [|m ms] eqn:Hm.
      * destruct (List.filter _ (map fst response)); reflexivity.
      * exfalso. assert (Hin : m ∈ m :: ms) by (apply elem_of_cons; auto).
        apply Hmissing in Hin. destruct Hin as [Hreq Hnot]. apply Hnot, Hall, Hreq.
  - intros missing_fields H. destruct missing as [|m ms] eqn:Hm.
    + destruct (List.filter _ (map fst response)); discriminate.
    + cbn in H. injection H as <-. split; [discriminate|]. split; [reflexivity|].
      exact Hmissing.
Qed.

End SchemaFacts.

(** ** Metrics *)
Module MetricsFacts.
Import Metrics.

Section WithNumbers.
Context {num : Type} (zero : num) (add sub : num -> num -> num).

Lemma end_timer_started name t0 t1 (s : TestMetrics (num:=num)) :
  end_timer zero sub name t1 (start_timer name t0 s) =
  (sub t1 t0,
   {| metrics := <[name +:+ "_duration" := sub t1 t0]> (metrics s);
      start_times := delete name (<[name := t0]> (start_times s)) |}).
Proof.
  unfold end_timer, start_timer. cbn [start_times metrics].
  rewrite lookup_insert_eq. reflexivity.
Qed.

(** A timer is read once: after [start_timer(name)] at [t0], the first
    [end_timer(name)], at [t1], returns [t1 - t0], records it under
    [name_duration] and forgets the start; a second [end_timer(name)]
    returns zero and changes nothing, so the duration recorded stays. *)
Theorem end_timer_once name t0 t1 t2 (s : TestMetrics (num:=num)) :
  let s1 := snd (end_timer zero sub name t1 (start_timer name t0 s)) in
  fst (end_timer zero sub name t1 (start_timer name t0 s)) = sub t1 t0 /\
  metrics s1 !! (name +:+ "_duration") = Some (sub t1 t0) /\
  start_times s1 !! name = None /\
  end_timer zero sub name t2 s1 = (zero, s1).
Proof.
  cbv zeta. rewrite end_timer_started. cbn [fst snd metrics start_times].
  split; [reflexivity|]. split; [apply lookup_insert_eq|].
  split; [apply lookup_delete_eq|].
  unfold end_timer. cbn [start_times]. rewrite lookup_delete_eq. reflexivity.
Qed.

Lemma increment_counter_other name other value (s : TestMetrics (num:=num)) :
  other <> name ->
  metrics (increment_counter zero add name value s) !! other = metrics s !! other.
Proof. intros H. cbn. apply lookup_insert_ne. congruence. Qed.

(** Counters accumulate: after [increment_counter(name, v)] for each [v]
    of a list of values that is not empty, the metric [name] is the sum,
    taken in order, of the value it had (zero when it was not set) and the
    values; the other metrics are as they were. *)
Theorem increment_counter_sums name values (s : TestMetrics (num:=num)) :
  values <> [] ->
  let s' := foldl (fun s v => increment_counter zero add name v s) s values in
  metrics s' !! name = Some (foldl add (default zero (metrics s !! name)) values) /\
  forall other, other <> name -> metrics s' !! other = metrics s !! other.
Proof.
  cbv zeta. revert s. induction values as [|v values IH]; intros s Hne; [congruence|].
  cbn [foldl]. destruct values as [|v' values'].
  - cbn. split; [apply lookup_insert_eq|]. intros other H. apply lookup_insert_ne. congruence.
  - destruct (IH (increment_counter zero add name v s)) as [Hsum Hother]; [discriminate|].
    split.
    + rewrite Hsum. cbn [metrics increment_counter]. rewrite lookup_insert_eq. reflexivity.
    + intros other H. rewrite Hother by exact H. apply increment_counter_other, H.
Qed.

End WithNumbers.

Lemma increment_counter_sums_witness :
  metrics (foldl (fun s v => increment_counter 0%Z Z.add "requests" v s)
                 (set_gauge "requests" 10%Z __init__) [1%Z; 2%Z; 3%Z]) !! "requests"
    = Some (foldl Z.add
              (default 0%Z (metrics (set_gauge "requests" 10%Z __init__) !! "requests"))
              [1%Z; 2%Z; 3%Z]) /\
  forall other, other <> "requests" ->
    metrics (foldl (fun s v => increment_counter 0%Z Z.add "requests" v s)
                   (set_gauge "requests" 10%Z __init__) [1%Z; 2%Z; 3%Z]) !! other
    = metrics (set_gauge "requests" 10%Z __init__) !! other.
Proof.
  apply (increment_counter_sums 0%Z Z.add "requests" [1%Z; 2%Z; 3%Z]
           (set_gauge "requests" 10%Z __init__)).
  discriminate.
Defined.

End MetricsFacts.

(** ** The search client and the test-data helper *)
Module SearchFacts.
Import Py Search.
Local Open Scope Z_scope.

Section WithBackend.
Context {Net : Type}.
Context (backend : api -> Net -> res json * Net).

Local Abbreviation call := (call backend).
Local Abbreviation step := (step backend).
Local Abbreviation run := (run backend).

Lemma search_get_client (s : state (Net:=Net)) :
  _get_client s = (Ok (client_of s), with_client s).
Proof.
  unfold with_client, client_of, _get_client. destruct (client (self s)); reflexivity.
Qed.

Lemma net_search_with_client (s : state (Net:=Net)) : net (with_client s) = net s.
Proof. unfold with_client, _get_client. destruct (client (self s)); reflexivity. Qed.

Lemma call_eq_backend a c (s : state (Net:=Net)) :
  call a c s =
  (fst (backend a (net s)),
   {| self := self s; net := snd (backend a (net s)); constructed := constructed s;
      events := events s ++ [Called c a] |}).
Proof. unfold Search.call. destruct (backend a (net s)); reflexivity. Qed.

(** Every method but [close] gets the client, makes one call on it, and
    then at most prints. *)
Lemma step_calls o (s : state (Net:=Net)) :
  is_Close o = false ->
  exists a printed,
    events (step o s) =
      events (with_client s) ++ Called (client_of s) a :: map Printed printed /\
    self (step o s) = self (with_client s) /\
    constructed (step o s) = constructed (with_client s).
Proof.
  destruct o; intros Ho; try discriminate;
    cbn [Search.step];
    unfold cluster_health, index_exists, create_index, delete_index, search,
      get_document, index_document, delete_document, count_documents, refresh_index,
      try_except_Exception, bind, ret, lift, emit;
    rewrite search_get_client;
    repeat match goal with
           | |- context [if Queries.truthy ?v then _ else _] =>
               destruct (Queries.truthy v)
           end;
    rewrite call_eq_backend;
    destruct (fst (backend _ (net (with_client s)))) as [j|e];
    cbn [fst snd self constructed events];
    repeat match goal with
           | |- context [getitem ?j ?k] => destruct (getitem j k)
           | |- context [isinstance_Exception ?e] => destruct (isinstance_Exception e)
           end;
    cbn [fst snd self constructed events];
    first [ exists a | eexists ];
    first [ exists [] ; split; [rewrite ?app_nil_r; reflexivity | split; reflexivity]
          | eexists [_]; split; [rewrite <- ?app_assoc; reflexivity | split; reflexivity] ].
Qed.

Lemma events_search_with_client (s : state (Net:=Net)) :
  events (with_client s) =
  events s ++ match client (self s) with
              | Some _ => []
              | None => [Constructed (constructed s) (settings_of (self s))]
              end.
Proof.
  unfold with_client, _get_client. destruct (client (self s)); cbn;
    [rewrite app_nil_r|]; reflexivity.
Qed.

Lemma client_search_with_client (s : state (Net:=Net)) :
  client (self (with_client s)) = Some (client_of s).
Proof.
  unfold with_client, client_of, _get_client.
  destruct (client (self s)) as [c|] eqn:Hc; cbn; congruence.
Qed.

Lemma constructed_search_with_client (s : state (Net:=Net)) :
  constructed (with_client s) =
  match client (self s) with
  | Some _ => constructed s
  | None => S (constructed s)
  end.
Proof. unfold with_client, _get_client. destruct (client (self s)); reflexivity. Qed.

Lemma close_keeps_client (s : state (Net:=Net)) :
  events (step OpClose s) =
    events s ++ match client (self s) with
                | Some c => [Closed c]
                | None => []
                end /\
  self (step OpClose s) = self s /\
  constructed (step OpClose s) = constructed s.
Proof.
  cbn [Search.step]. unfold close. destruct (client (self s)) as [c|]; cbn;
    [|rewrite app_nil_r]; auto.
Qed.

Lemma clients_of_printed printed :
  clients_constructed (map Printed printed) = [] /\
  clients_called (map Printed printed) = [] /\
  clients_closed (map Printed printed) = [].
Proof. induction printed as [|l printed IH]; cbn; auto. Qed.

Lemma single_client_step o (s : state (Net:=Net)) :
  single_client s -> single_client (step o s).
Proof.
  intros Hinv. unfold single_client in *. destruct (is_Close o) eqn:Ho.
  - destruct o; try discriminate.
    destruct (close_keeps_client s) as (Hev & -> & ->). rewrite Hev.
    destruct (client (self s)) as [c|]; [|rewrite app_nil_r; exact Hinv].
    destruct Hinv as (-> & Hc & Hcon & Hcalled & Hclosed).
    unfold clients_constructed, clients_called, clients_closed in *.
    rewrite !omap_app, Hcon. cbn. rewrite !app_nil_r.
    repeat split; auto. apply Forall_app. split; [assumption|]. repeat constructor.
  - destruct (step_calls o s Ho) as (a & printed & -> & -> & ->).
    rewrite client_search_with_client, constructed_search_with_client,
      events_search_with_client.
    destruct (clients_of_printed printed) as (Hp1 & Hp2 & Hp3).
    unfold client_of, clients_constructed, clients_called, clients_closed in *.
    destruct (client (self s)) as [c|].
    + destruct Hinv as (-> & Hc & Hcon & Hcalled & Hclosed).
      rewrite !omap_app. cbn [omap list_omap]. rewrite Hcon, Hp1, Hp2, Hp3. cbn.
      rewrite !app_nil_r. repeat split; auto.
      apply Forall_app. split; [assumption|]. repeat constructor.
    + destruct Hinv as (-> & ->).
      rewrite !omap_app. cbn [omap list_omap]. rewrite Hp1, Hp2, Hp3. cbn.
      repeat split; repeat constructor.
Qed.

Lemma search_run_snoc ops o (s : state (Net:=Net)) : run (ops ++ [o]) s = step o (run ops s).
Proof. unfold Search.run. rewrite foldl_app. reflexivity. Qed.

Lemma single_client_run ops host port scheme username password verify_certs timeout n :
  single_client
    (run ops (fresh_state (__init__ host port scheme username password verify_certs timeout) n)).
Proof.
  induction ops as [|o ops IH] using rev_ind.
  - cbn. auto.
  - rewrite search_run_snoc. apply single_client_step, IH.
Qed.

(** Whatever a test does with a new [OpenSearchClient], [close] included,
    the instance constructs at most one client: every call goes through
    the client number 0, the only one constructed, also after it has been
    closed, because [close] leaves [self.client] as it is. *)
Theorem search_client_constructed_once
    ops host port scheme username password verify_certs timeout n :
  let s := run ops (fresh_state (__init__ host port scheme username password
                                   verify_certs timeout) n) in
  (length (clients_constructed (events s)) <= 1)%nat /\
  (forall c, c ∈ clients_called (events s) ->
             c = 0%nat /\ clients_constructed (events s) = [0%nat]) /\
  (forall c, c ∈ clients_closed (events s) -> client (self s) = Some c) /\
  client (self (step OpClose s)) = client (self s).
Proof.
  cbv zeta.
  pose proof (single_client_run ops host port scheme username password verify_certs
                timeout n) as Hinv.
  set (s := run ops _) in *. unfold single_client in Hinv.
  destruct (close_keeps_client s) as (_ & Hself & _).
  split; [|split; [|split]].
  - destruct (client (self s)) as [c0|].
    + destruct Hinv as (_ & _ & -> & _). cbn. lia.
    + destruct Hinv as (_ & ->). cbn. lia.
  - intros c Hin. destruct (client (self s)) as [c0|].
    + destruct Hinv as (_ & _ & Hcon & Hcalled & _).
      rewrite Forall_forall in Hcalled. auto.
    + destruct Hinv as (_ & Hev). rewrite Hev in Hin.
      apply elem_of_nil in Hin. contradiction.
  - intros c Hin. destruct (client (self s)) as [c0|].
    + destruct Hinv as (-> & _ & _ & _ & Hclosed).
      rewrite Forall_forall in Hclosed. rewrite (Hclosed c Hin). reflexivity.
    + destruct Hinv as (_ & Hev). rewrite Hev in Hin.
      apply elem_of_nil in Hin. contradiction.
  - f_equal. exact Hself.
Qed.

Lemma getitem_raises_Exception j key e :
  getitem j key = Err e -> isinstance_Exception e = true.
Proof.
  destruct j; cbn; try (intros [= <-]; reflexivity).
  destruct (m !! key); intros [= <-]. reflexivity.
Qed.

Lemma best_effort_results index doc_id mapping (s : state (Net:=Net)) :
  backend_raises_only_Exception backend ->
  fst (refresh_index backend index s) = Ok (succeeds backend (IndicesRefresh index) s) /\
  fst (delete_index backend index s) = Ok (succeeds backend (IndicesDelete index) s) /\
  fst (delete_document backend index doc_id s)
    = Ok (succeeds backend (DeleteDoc index doc_id) s) /\
  fst (create_index backend index mapping s)
    = Ok (succeeds backend (IndicesCreate index (create_body mapping)) s) /\
  fst (index_exists backend index s)
    = Ok match fst (backend (IndicesExists index) (net s)) with
         | Ok answer => answer
         | Err _ => JBool false
         end /\
  fst (get_document backend index doc_id s)
    = Ok match fst (backend (GetDoc index doc_id) (net s)) with
         | Ok response =>
             match getitem response "_source" with
             | Ok source => source
             | Err _ => JNull
             end
         | Err _ => JNull
         end /\
  fst (cluster_health backend s)
    = Ok match fst (backend ClusterHealth (net s)) with
         | Ok health =>
             match getitem health "status" with
             | Ok status => is_in status ["green"; "yellow"]
             | Err _ => false
             end
         | Err _ => false
         end.
Proof.
  intros Hb. unfold succeeds, create_body.
  repeat split;
    unfold refresh_index, delete_index, delete_document, create_index, index_exists,
      get_document, cluster_health, try_except_Exception, bind, ret, lift, emit;
    rewrite search_get_client;
    try (destruct (Queries.truthy mapping));
    rewrite call_eq_backend, net_search_with_client;
    cbn [fst snd];
    match goal with
    | |- context [fst (backend ?a (net s))] =>
        destruct (fst (backend a (net s))) as [j|e] eqn:Hcall
    end;
    try (rewrite (Hb _ _ _ Hcall)); try reflexivity;
    match goal with
    | |- context [getitem ?j ?k] =>
        destruct (getitem j k) as [v|e] eqn:Hget;
        [reflexivity|rewrite (getitem_raises_Exception _ _ _ Hget); reflexivity]
    end.
Qed.

(** The best-effort methods never raise when the client raises nothing
    but [Exception]s: [refresh_index], [delete_index], [delete_document]
    and [create_index] return whether the call succeeded, [index_exists]
    returns the answer or [False], [get_document] the source of the
    document or [None], and [cluster_health] whether the status is green
    or yellow, [False] when there is no answer or no status. *)
Theorem best_effort_methods_return index doc_id mapping (s : state (Net:=Net)) :
  backend_raises_only_Exception backend ->
  fst (refresh_index backend index s) = Ok (succeeds backend (IndicesRefresh index) s) /\
  fst (delete_index backend index s) = Ok (succeeds backend (IndicesDelete index) s) /\
  fst (delete_document backend index doc_id s)
    = Ok (succeeds backend (DeleteDoc index doc_id) s) /\
  fst (create_index backend index mapping s)
    = Ok (succeeds backend (IndicesCreate index (create_body mapping)) s) /\
  fst (index_exists backend index s)
    = Ok match fst (backend (IndicesExists index) (net s)) with
         | Ok answer => answer
         | Err _ => JBool false
         end /\
  fst (get_document backend index doc_id s)
    = Ok match fst (backend (GetDoc index doc_id) (net s)) with
         | Ok response =>
             match getitem response "_source" with
             | Ok source => source
             | Err _ => JNull
             end
         | Err _ => JNull
         end /\
  fst (cluster_health backend s)
    = Ok match fst (backend ClusterHealth (net s)) with
         | Ok health =>
             match getitem health "status" with
             | Ok status => is_in status ["green"; "yellow"]
             | Err _ => false
             end
         | Err _ => false
         end.
Proof. apply best_effort_results. Qed.

Lemma best_effort_pairs index doc_id mapping (s : state (Net:=Net)) :
  backend_raises_only_Exception backend ->
  (exists v s', index_exists backend index s = (Ok v, s') /\
                v = match fst (backend (IndicesExists index) (net s)) with
                    | Ok answer => answer
                    | Err _ => JBool false
                    end) /\
  (exists b s', refresh_index backend index s = (Ok b, s')) /\
  (exists b s', create_index backend index mapping s = (Ok b, s')) /\
  (exists b s', delete_document backend index doc_id s = (Ok b, s')).
Proof.
  intros Hb.
  destruct (best_effort_results index doc_id mapping s Hb)
    as (H1 & _ & H3 & H4 & H5 & _).
  repeat split.
  - destruct (index_exists backend index s) as [r s'] eqn:He. cbn in H5. subst r. eauto.
  - destruct (refresh_index backend index s) as [r s'] eqn:He. cbn in H1. subst r. eauto.
  - destruct (create_index backend index mapping s) as [r s'] eqn:He. cbn in H4. subst r. eauto.
  - destruct (delete_document backend index doc_id s) as [r s'] eqn:He. cbn in H3. subst r. eauto.
Qed.

Lemma down_raises_only_Exception :
  backend_down backend -> backend_raises_only_Exception backend.
Proof.
  intros Hdown a n e He. destruct (Hdown a n) as (e' & He' & Hi). congruence.
Qed.

(** The loop of [setup_test_indices] is never left by an exception. *)
Lemma setup_loop_ends :
  backend_raises_only_Exception backend ->
  forall items h (s : state (Net:=Net)),
  exists h' s', setup_loop backend items h s = (None, h', s').
Proof.
  intros Hb. induction items as [|[index_name config] items IH]; intros h s.
  - exists h, s. reflexivity.
  - cbn [setup_loop].
    destruct (best_effort_pairs index_name JNull JNull s Hb)
      as ((found & s1 & -> & _) & _).
    destruct (Queries.truthy found).
    + destruct (best_effort_pairs index_name JNull JNull s1 Hb)
        as (_ & (b & s2 & ->) & _). apply IH.
    + destruct (best_effort_pairs index_name JNull
                  (default JNull (config !! "mapping")) s1 Hb)
        as (_ & _ & (b & s2 & ->) & _).
      cbn [emit].
      match goal with
      | |- context [refresh_index backend index_name ?s3] =>
          destruct (best_effort_pairs index_name JNull JNull s3 Hb)
            as (_ & (b' & s4 & ->) & _)
      end.
      apply IH.
Qed.

(** [setup_test_indices] returns [True] whenever the client raises
    nothing but [Exception]s, whatever the configuration and whatever the
    cluster answers: a failure to create or to refresh an index is not
    reported. *)
Theorem setup_test_indices_returns_true indices_config h (s : state (Net:=Net)) :
  backend_raises_only_Exception backend ->
  fst (fst (setup_test_indices backend indices_config h s)) = Ok true.
Proof.
  intros Hb. unfold setup_test_indices.
  destruct (setup_loop_ends Hb indices_config h s) as (h' & s' & ->). reflexivity.
Qed.

Lemma setup_loop_down :
  backend_down backend ->
  forall items h (s : state (Net:=Net)),
  exists h' s',
    setup_loop backend items h s = (None, h', s') /\
    created_indices h' = list_to_set (map fst items) ∪ created_indices h.
Proof.
  intros Hdown. pose proof (down_raises_only_Exception Hdown) as Hb.
  induction items as [|[index_name config] items IH]; intros h s.
  - exists h, s. split; [reflexivity|]. cbn. rewrite (left_id_L ∅ (∪)). reflexivity.
  - cbn [setup_loop].
    destruct (best_effort_pairs index_name JNull JNull s Hb)
      as ((found & s1 & -> & Hfound) & _).
    destruct (Hdown (IndicesExists index_name) (net s)) as (e & He & _).
    rewrite He in Hfound. subst found. cbn [Queries.truthy].
    destruct (best_effort_pairs index_name JNull
                (default JNull (config !! "mapping")) s1 Hb)
      as (_ & _ & (b & s2 & ->) & _).
    cbn [emit].
    match goal with
    | |- context [refresh_index backend index_name ?s3] =>
        destruct (best_effort_pairs index_name JNull JNull s3 Hb)
          as (_ & (b' & s4 & ->) & _)
    end.
    match goal with
    | |- context [setup_loop backend items ?h1 s4] =>
        destruct (IH h1 s4) as (h' & s' & -> & Hset)
    end.
    exists h', s'. split; [reflexivity|]. rewrite Hset. cbn [map fst list_to_set created_indices].
    rewrite (assoc_L (∪)). f_equal. apply (comm_L (∪)).
Qed.

(** When the cluster cannot be reached (every call raises an
    [Exception]), [setup_test_indices] still returns [True], and it
    records every index of the configuration in [created_indices], though
    none has been created. *)
Theorem setup_test_indices_when_down indices_config h (s : state (Net:=Net)) :
  backend_down backend ->
  fst (fst (setup_test_indices backend indices_config h s)) = Ok true /\
  created_indices (snd (fst (setup_test_indices backend indices_config h s)))
    = list_to_set (map fst indices_config) ∪ created_indices h.
Proof.
  intros Hdown. unfold setup_test_indices.
  destruct (setup_loop_down Hdown indices_config h s) as (h' & s' & -> & Hset).
  split; [reflexivity|exact Hset].
Qed.

Lemma calls_made_app evs evs' :
  calls_made (evs ++ evs') = calls_made evs ++ calls_made evs'.
Proof. apply omap_app. Qed.

Lemma calls_made_with_client (s : state (Net:=Net)) :
  calls_made (events (with_client s)) = calls_made (events s).
Proof.
  rewrite events_search_with_client, calls_made_app.
  destruct (client (self s)); cbn; apply app_nil_r.
Qed.

Lemma delete_document_calls index doc_id (s : state (Net:=Net)) :
  calls_made (events (snd (delete_document backend index doc_id s)))
  = calls_made (events s) ++ [DeleteDoc index doc_id].
Proof.
  unfold delete_document, try_except_Exception, bind, ret.
  rewrite search_get_client, call_eq_backend.
  destruct (fst (backend (DeleteDoc index doc_id) (net (with_client s)))) as [j|e];
    [|destruct (isinstance_Exception e)];
    cbn [snd events]; rewrite calls_made_app, calls_made_with_client; reflexivity.
Qed.

Lemma cleanup_loop_deletes :
  backend_raises_only_Exception backend ->
  forall documents (s : state (Net:=Net)),
  exists s',
    cleanup_loop backend documents s = (None, s') /\
    calls_made (events s')
      = calls_made (events s) ++ map (fun d => DeleteDoc (fst d) (snd d)) documents.
Proof.
  intros Hb. induction documents as [|[index doc_id] documents IH]; intros s.
  - exists s. cbn. rewrite app_nil_r. auto.
  - cbn [cleanup_loop].
    pose proof (delete_document_calls index doc_id s) as Hcalls.
    destruct (best_effort_pairs index doc_id JNull s Hb) as (_ & _ & _ & (b & s1 & Hd)).
    rewrite Hd in Hcalls |- *. cbn [snd] in Hcalls.
    destruct (IH s1) as (s' & -> & Hs').
    exists s'. split; [reflexivity|]. rewrite Hs', Hcalls. cbn [map fst snd].
    rewrite <- app_assoc. reflexivity.
Qed.

(** When the client raises nothing but [Exception]s, [cleanup_test_data]
    returns normally whether or not the deletions succeed: it has asked
    the cluster to delete each tracked document, once and in order, and
    has made no other call (no index is deleted); it forgets the tracked
    documents and keeps the set of created indices. *)
Theorem cleanup_test_data_deletes_documents h (s : state (Net:=Net)) :
  backend_raises_only_Exception backend ->
  fst (fst (cleanup_test_data backend h s)) = Ok tt /\
  created_documents (snd (fst (cleanup_test_data backend h s))) = [] /\
  created_indices (snd (fst (cleanup_test_data backend h s))) = created_indices h /\
  calls_made (events (snd (cleanup_test_data backend h s)))
    = calls_made (events s)
      ++ map (fun d => DeleteDoc (fst d) (snd d)) (created_documents h).
Proof.
  intros Hb. unfold cleanup_test_data.
  destruct (cleanup_loop_deletes Hb (created_documents h) s) as (s' & -> & Hcalls).
  cbn. auto.
Qed.

End WithBackend.

Lemma refusing_is_down : backend_down refusing.
Proof. intros a n. exists (TransportError "connection refused"). split; reflexivity. Qed.

Lemma best_effort_methods_return_witness :
  fst (refresh_index refusing "cybrty-runs" (fresh_state local_client tt))
    = Ok (succeeds refusing (IndicesRefresh "cybrty-runs") (fresh_state local_client tt)) /\
  fst (delete_index refusing "cybrty-runs" (fresh_state local_client tt))
    = Ok (succeeds refusing (IndicesDelete "cybrty-runs") (fresh_state local_client tt)) /\
  fst (delete_document refusing "cybrty-runs" (JStr "doc-1") (fresh_state local_client tt))
    = Ok (succeeds refusing (DeleteDoc "cybrty-runs" (JStr "doc-1"))
            (fresh_state local_client tt)) /\
  fst (create_index refusing "cybrty-runs" JNull (fresh_state local_client tt))
    = Ok (succeeds refusing (IndicesCreate "cybrty-runs" (create_body JNull))
            (fresh_state local_client tt)) /\
  fst (index_exists refusing "cybrty-runs" (fresh_state local_client tt))
    = Ok match fst (refusing (IndicesExists "cybrty-runs") (net (fresh_state local_client tt))) with
         | Ok answer => answer
         | Err _ => JBool false
         end /\
  fst (get_document refusing "cybrty-runs" (JStr "doc-1") (fresh_state local_client tt))
    = Ok match fst (refusing (GetDoc "cybrty-runs" (JStr "doc-1"))
                      (net (fresh_state local_client tt))) with
         | Ok response =>
             match getitem response "_source" with
             | Ok source => source
             | Err _ => JNull
             end
         | Err _ => JNull
         end /\
  fst (cluster_health refusing (fresh_state local_client tt))
    = Ok match fst (refusing ClusterHealth (net (fresh_state local_client tt))) with
         | Ok health =>
             match getitem health "status" with
             | Ok status => is_in status ["green"; "yellow"]
             | Err _ => false
             end
         | Err _ => false
         end.
Proof.
  apply (best_effort_methods_return refusing "cybrty-runs" (JStr "doc-1") JNull
           (fresh_state local_client tt)).
  intros a n e H. inversion H. reflexivity.
Defined.

Lemma setup_test_indices_returns_true_witness :
  fst (fst (setup_test_indices refusing
              [("cybrty-planner", ∅); ("cybrty-actions", ∅)]
              (Helper ∅ []) (fresh_state local_client tt))) = Ok true.
Proof.
  apply (setup_test_indices_returns_true refusing
           [("cybrty-planner", ∅); ("cybrty-actions", ∅)]
           (Helper ∅ []) (fresh_state local_client tt)).
  intros a n e H. inversion H. reflexivity.
Defined.

Lemma setup_test_indices_when_down_witness :
  fst (fst (setup_test_indices refusing
              [("cybrty-planner", ∅); ("cybrty-actions", ∅)]
              (Helper ∅ []) (fresh_state local_client tt))) = Ok true /\
  created_indices
    (snd (fst (setup_test_indices refusing
                 [("cybrty-planner", ∅); ("cybrty-actions", ∅)]
                 (Helper ∅ []) (fresh_state local_client tt))))
    = list_to_set (map fst [("cybrty-planner", (∅ : gmap string json));
                            ("cybrty-actions", ∅)])
      ∪ created_indices (Helper ∅ []).
Proof.
  apply (setup_test_indices_when_down refusing
           [("cybrty-planner", ∅); ("cybrty-actions", ∅)]
           (Helper ∅ []) (fresh_state local_client tt)).
  intros a n. exists (TransportError "connection refused"). split; reflexivity.
Defined.

Lemma cleanup_test_data_deletes_documents_witness :
  fst (fst (cleanup_test_data refusing
              (Helper {[ "cybrty-runs" ]} [("cybrty-runs", JStr "doc-1")])
              (fresh_state local_client tt))) = Ok tt /\
  created_documents
    (snd (fst (cleanup_test_data refusing
                 (Helper {[ "cybrty-runs" ]} [("cybrty-runs", JStr "doc-1")])
                 (fresh_state local_client tt)))) = [] /\
  created_indices
    (snd (fst (cleanup_test_data refusing
                 (Helper {[ "cybrty-runs" ]} [("cybrty-runs", JStr "doc-1")])
                 (fresh_state local_client tt))))
    = created_indices (Helper {[ "cybrty-runs" ]} [("cybrty-runs", JStr "doc-1")]) /\
  calls_made
    (events (snd (cleanup_test_data refusing
                    (Helper {[ "cybrty-runs" ]} [("cybrty-runs", JStr "doc-1")])
                    (fresh_state local_client tt))))
    = calls_made (events (fresh_state local_client tt))
      ++ map (fun d => DeleteDoc (fst d) (snd d))
           (created_documents
              (Helper {[ "cybrty-runs" ]} [("cybrty-runs", JStr "doc-1")])).
Proof.
  apply (cleanup_test_data_deletes_documents refusing
           (Helper {[ "cybrty-runs" ]} [("cybrty-runs", JStr "doc-1")])
           (fresh_state local_client tt)).
  intros a n e H. inversion H. reflexivity.
Defined.

End SearchFacts.

(** ** Bounds on the poller, and the other waits *)
Module WaitingFacts.
Import Py Poller PollerFacts Waiting.
Local Open Scope Z_scope.

Lemma tick_lower f clock interval k :
  0 < interval -> clock + Z.of_nat k * interval <= tick f clock interval k.
Proof.
  intros Hi. induction k as [|k IH]; [cbn; lia|]. cbn [tick]. nia.
Qed.

Lemma test_passed f clock timeout interval description k :
  iteration f clock timeout interval description k = None ->
  tick f clock interval k - clock < timeout.
Proof.
  unfold iteration.
  destruct (Z.ltb_spec (tick f clock interval k - clock) timeout); [auto|discriminate].
Qed.

(** With a positive interval the predicate is called at most
    [timeout / interval] times, rounded up, whatever it does and however
    the poller ends: the last call is started before the timeout has
    elapsed, and the calls are at least one interval apart. *)
Theorem wait_for_condition_call_bound
    fuel f timeout interval description clock r w' :
  0 < interval ->
  wait_for_condition fuel f timeout interval description clock = Some (r, w') ->
  Z.of_nat (calls w') * interval < Z.max 0 timeout + interval.
Proof.
  intros Hi H. rewrite wait_for_condition_loop in H.
  apply poll_loop_inv in H. destruct H as (n & _ & Hgo & Hend). cbn in Hgo, Hend.
  pose proof (tick_lower f clock interval n Hi) as Hn.
  destruct (iteration_Some _ _ _ _ _ _ _ Hend)
    as [(Ht & Hr & Hx)|[(Ht & e & Hr & He & Hx)|(Ht & Hx)]];
    inversion Hx; subst; cbn [calls after_call print at_test].
  - nia.
  - nia.
  - destruct n as [|m]; [lia|].
    pose proof (test_passed _ _ _ _ _ m (Hgo m (Nat.lt_succ_diag_r m))) as Hm.
    pose proof (tick_lower f clock interval m Hi). nia.
Qed.

Lemma wait_for_condition_call_bound_witness :
  Z.of_nat (calls {| now := 106; calls := 3;
                     stdout := [ErrorChecking "x" (TransportError "connect timeout");
                                ErrorChecking "x" (TransportError "connect timeout");
                                ErrorChecking "x" (TransportError "connect timeout");
                                TimeoutWaiting "x" 5] |}) * 1
  < Z.max 0 5 + 1.
Proof.
  apply (wait_for_condition_call_bound 10 (refused_after 1) 5 1 "x" 100 (Return false)).
  - lia.
  - reflexivity.
Defined.

Lemma errors_none f clock interval description k :
  (forall n t, exists b, result (f n t) = Returns b) ->
  errors f clock interval description k = [].
Proof.
  intros Hf. induction k as [|k IH]; [reflexivity|].
  cbn [errors]. rewrite IH. unfold poll.
  destruct (Hf k (tick f clock interval k)) as [b ->]. reflexivity.
Qed.

(** [wait_for_ready] with its default arguments (a timeout of 60 seconds
    and an interval of 2 seconds, on a clock of [hz] ticks per second), on
    a health check that never raises: the wait ends and returns a boolean;
    it has made at most 30 health checks and has printed no error line. *)
Theorem wait_for_ready_defaults hz health_check clock :
  0 < hz ->
  (forall n t, exists b, result (health_check n t) = Returns b) ->
  exists fuel b w',
    wait_for_ready fuel health_check (60 * hz) (2 * hz) clock = Some (Return b, w') /\
    (calls w' <= 30)%nat /\
    errors_logged w' = 0%nat.
Proof.
  intros Hhz Hf. unfold wait_for_ready.
  assert (Hpass : time_passes health_check (2 * hz)) by (intros n t; lia).
  destruct (run_ends health_check clock (60 * hz) (2 * hz) "API readiness check" Hpass)
    as (n & [r w'] & Hgo & Hend).
  destruct (wait_for_condition_at _ _ _ _ _ _ _ Hgo Hend) as [Hrun _].
  pose proof (tick_lower health_check clock (2 * hz) n ltac:(lia)) as Hn.
  pose proof (errors_none health_check clock (2 * hz) "API readiness check" n Hf) as Herr.
  destruct (iteration_Some _ _ _ _ _ _ _ Hend)
    as [(Ht & Hr & Hx)|[(Ht & e & Hr & He & Hx)|(Ht & Hx)]];
    inversion Hx; subst.
  - exists (S n), true, (after_call health_check clock (2 * hz) "API readiness check" n).
    split; [exact Hrun|]. unfold errors_logged. cbn [calls stdout after_call].
    rewrite Herr. split; [nia|reflexivity].
  - unfold poll in Hr. destruct (Hf n (tick health_check clock (2 * hz) n)) as [b Hb].
    congruence.
  - exists (S n), false,
      (print (TimeoutWaiting "API readiness check" (60 * hz))
         (at_test health_check clock (2 * hz) "API readiness check" n)).
    split; [exact Hrun|]. unfold errors_logged. cbn [calls stdout print at_test].
    rewrite Herr. split; [|reflexivity].
    destruct n as [|m]; [lia|].
    pose proof (test_passed _ _ _ _ _ m (Hgo m (Nat.lt_succ_diag_r m))) as Hm.
    pose proof (tick_lower health_check clock (2 * hz) m ltac:(lia)). nia.
Qed.

Lemma wait_for_ready_defaults_witness :
  exists fuel b w',
    wait_for_ready fuel starting_up (60 * 1000) (2 * 1000) 0 = Some (Return b, w') /\
    (calls w' <= 30)%nat /\
    errors_logged w' = 0%nat.
Proof.
  apply (wait_for_ready_defaults 1000 starting_up 0).
  - lia.
  - intros n t. eexists. reflexivity.
Defined.

Lemma count_loop_poll_loop fuel count_documents expected_count
    start_time timeout interval description :
  forall w,
    count_loop fuel count_documents expected_count start_time timeout interval
      (now w) (calls w)
    = option_map clock_and_calls
        (poll_loop fuel (count_reached count_documents expected_count)
           start_time timeout interval description w).
Proof.
  induction fuel as [|fuel IH]; intros w; [reflexivity|].
  cbn [count_loop poll_loop]. unfold invoke, count_reached.
  destruct (now w - start_time <? timeout); [|reflexivity].
  cbn [result cost].
  destruct (answer (count_documents (calls w) (now w))) as [count|e].
  - destruct (expected_count <=? count); [reflexivity|].
    rewrite <- IH. reflexivity.
  - destruct (isinstance_Exception e); [|reflexivity].
    rewrite <- IH. reflexivity.
Qed.

(** [wait_for_document_count] is the poller on the predicate
    [count >= expected_count], without the printing: for every count
    source, timeout and interval it ends when and as
    [wait_for_condition] does on that predicate, with the same result, at
    the same clock reading and after the same number of calls. *)
Theorem wait_for_document_count_is_poller
    fuel count_documents expected_count timeout interval description clock :
  wait_for_document_count fuel count_documents expected_count timeout interval clock
  = option_map clock_and_calls
      (wait_for_condition fuel (count_reached count_documents expected_count)
         timeout interval description clock).
Proof.
  unfold wait_for_document_count, wait_for_condition.
  apply (count_loop_poll_loop fuel count_documents expected_count clock timeout interval
           description {| now := clock; calls := 0; stdout := [] |}).
Qed.

End WaitingFacts.

